(** * TrendTube: a shallow embedding of [trendtube.py]

    The development follows the two classes of the program, [Video] and
    [Trending].  Python values are modelled as follows.

    - A [str] is a [string]; a character is a code point below 256.
    - An [int] is a [Z]; a length or a loop counter that the code keeps
      non-negative is a [nat].
    - A [float] is the binary64 value it is, kept exactly as a whole
      number of units of [2^-1074]; division and [round] round as the
      interpreter does, to the nearest float with ties to even.
    - A [list] is a [list]; [None] is the [None] of an [option].
    - A [dict] is an association list in insertion order, since the program
      relies on that order when it sorts a frequency table.
    - A raised exception is the [Err] branch of [result].
    - [list(set(l))] is a function [list_set] of which only the two facts
      the language guarantees are assumed: the result has no duplicate and
      holds exactly the elements of [l].  Its order is left open.
    - The collection of a [Trending] object holds distinct [Video] objects
      that share no tag list, as [get_videos] builds them, so a video is a
      value of the list that holds it. *)

From Stdlib Require Import List String Ascii ZArith Lia Bool Arith.
From Stdlib Require Import Sorting.Sorted Sorting.Permutation.
From Equations Require Import Equations.
Import ListNotations.

Open Scope string_scope.
Open Scope list_scope.

(** ** Exceptions *)

Inductive PyError : Type :=
| TypeError
| AttributeError
| IndexError
| ValueError
| ZeroDivisionError
| OverflowError.

Inductive result (A : Type) : Type :=
| Ok (a : A)
| Err (e : PyError).

Arguments Ok {A} a.
Arguments Err {A} e.

Definition bind {A B : Type} (r : result A) (k : A -> result B) : result B :=
  match r with
  | Ok a => k a
  | Err e => Err e
  end.

Notation "x <- r ;; k" := (bind r (fun x => k))
  (at level 61, r at next level, right associativity).

(** ** Strings *)

(** [str.split()] separates on the characters for which [str.isspace]
    holds: below 256 these are 9 to 13, 28 to 32, 133 and 160. *)
Definition is_space (c : ascii) : bool :=
  let n := nat_of_ascii c in
  (((9 <=? n) && (n <=? 13)) || ((28 <=? n) && (n <=? 32))
   || (n =? 133) || (n =? 160))%nat.

(** [string.punctuation]; the double quote is character 34. *)
Definition punctuation : string :=
  "!" ++ String (ascii_of_nat 34) "#$%&'()*+,-./:;<=>?@[\]^_`{|}~".

(** [c in string.punctuation] for a string [c] of one character. *)
Definition in_punctuation (c : ascii) : bool :=
  existsb (Ascii.eqb c) (list_ascii_of_string punctuation).

Definition str_is_empty (s : string) : bool :=
  match s with
  | EmptyString => true
  | String _ _ => false
  end.

(** [s.split()]: the maximal runs of characters that are not white space.
    [cur] is the run being read. *)
Fixpoint split_from (cur s : string) : list string :=
  match s with
  | EmptyString => if str_is_empty cur then [] else [cur]
  | String c r =>
      if is_space c
      then if str_is_empty cur then split_from "" r else cur :: split_from "" r
      else split_from (cur ++ String c "") r
  end.

Definition str_split (s : string) : list string := split_from "" s.

(** [s[0]] and [s[-1]]; [None] stands for the [IndexError] of an empty
    string. *)
Definition str_first (s : string) : option ascii :=
  match s with
  | EmptyString => None
  | String c _ => Some c
  end.

Fixpoint str_last (s : string) : option ascii :=
  match s with
  | EmptyString => None
  | String c EmptyString => Some c
  | String _ r => str_last r
  end.

(** [s[1:]] *)
Definition drop_first (s : string) : string :=
  match s with
  | EmptyString => ""
  | String _ r => r
  end.

(** [s[:-1]] *)
Fixpoint drop_last (s : string) : string :=
  match s with
  | EmptyString => ""
  | String _ EmptyString => ""
  | String c r => String c (drop_last r)
  end.

(** [s.lower()] on code points below 256: the letters A to Z and the
    accented capitals 192 to 222, the multiplication sign 215 apart. *)
Definition char_lower (c : ascii) : ascii :=
  let n := nat_of_ascii c in
  if (((65 <=? n) && (n <=? 90))
      || ((192 <=? n) && (n <=? 222) && negb (n =? 215)))%nat
  then ascii_of_nat (n + 32) else c.

Fixpoint str_lower (s : string) : string :=
  match s with
  | EmptyString => ""
  | String c r => String (char_lower c) (str_lower r)
  end.

(** The characters of a string, each as a string of length one: what
    iterating over a [str] yields. *)
Fixpoint str_chars (s : string) : list string :=
  match s with
  | EmptyString => []
  | String c r => String c "" :: str_chars r
  end.

(** [l.count(x)] *)
Fixpoint list_count (l : list string) (x : string) : Z :=
  match l with
  | [] => 0
  | y :: r => ((if String.eqb y x then 1 else 0) + list_count r x)%Z
  end.

(** [l[i]] for a Python index: a negative [i] counts from the end. *)
Definition list_getitem (l : list string) (i : Z) : result string :=
  let n := Z.of_nat (List.length l) in
  let j := (if i <? 0 then i + n else i)%Z in
  if ((j <? 0) || (n <=? j))%Z then Err IndexError
  else match nth_error l (Z.to_nat j) with
       | Some x => Ok x
       | None => Err IndexError
       end.

(** ** The [Video] class *)

(** [self._title] is a [str] until [split_title] or [stop_title] turns it
    into a list of words. *)
Inductive PyTitle : Type :=
| TitleStr (s : string)
| TitleList (l : list string).

(** The numeric fields hold the integer that [int(...)] reads from the
    stored value. *)
Record Video : Type := mkVideo {
  v_id : string;
  v_title : PyTitle;
  v_tags : option (list string);
  v_duration : string;
  v_view_count : Z;
  v_likes : Z;
  v_dislikes : Z;
  v_comment_count : Z;
  v_made_for_kids : option bool
}.

Definition set_title (v : Video) (t : PyTitle) : Video :=
  mkVideo (v_id v) t (v_tags v) (v_duration v) (v_view_count v) (v_likes v)
          (v_dislikes v) (v_comment_count v) (v_made_for_kids v).

Definition set_tags (v : Video) (t : option (list string)) : Video :=
  mkVideo (v_id v) (v_title v) t (v_duration v) (v_view_count v) (v_likes v)
          (v_dislikes v) (v_comment_count v) (v_made_for_kids v).

(** The body of the loop of [split_title] on one word: one punctuation
    character is taken off each end that carries one. *)
Definition strip_punct (w : string) : result string :=
  match str_first w, str_last w with
  | Some a, Some b =>
      if in_punctuation a && in_punctuation b
      then Ok (drop_last (drop_first w))
      else if in_punctuation a && negb (in_punctuation b)
      then Ok (drop_first w)
      else if negb (in_punctuation a) && in_punctuation b
      then Ok (drop_last w)
      else Ok w
  | _, _ => Err IndexError
  end.

(** The loop of [split_title]: the words stripped, the empty ones left
    out, in the order of the title. *)
Fixpoint strip_words (ws : list string) : result (list string) :=
  match ws with
  | [] => Ok []
  | w :: r =>
      x <- strip_punct w ;;
      xs <- strip_words r ;;
      Ok (if str_is_empty x then xs else x :: xs)
  end.

(** [if self._tags:] holds for a list that is neither [None] nor empty. *)
Definition has_tags (v : Video) : bool :=
  match v_tags v with
  | None => false
  | Some [] => false
  | Some (_ :: _) => true
  end.

Section VideoMethods.

(** [list(set(l))], in the order the interpreter happens to iterate. *)
Variable list_set : list string -> list string.

(** [stopwords.words('english')] *)
Variable stopwords_english : list string.

Definition split_title (combine : bool) (v : Video) : result Video :=
  match v_title v with
  | TitleStr s =>
      t <- strip_words (str_split s) ;;
      let t := list_set t in
      Ok (set_title v (TitleList (if combine then s :: t else t)))
  | TitleList _ => Err AttributeError
  end.

(** [if self._tags:] lets through a tag list that holds a tag; [None] and
    the empty list both reach the [raise]. *)
Definition split_tags (combine : bool) (v : Video) : result Video :=
  match v_tags v with
  | Some (tag0 :: tags0) =>
      let tags := tag0 :: tags0 in
      let t := list_set (flat_map str_split tags) in
      Ok (set_tags v (Some (if combine then tags ++ t else t)))
  | _ => Err TypeError
  end.

(** The list [ignore] of [__remove_stopwords] with [custom=True]. *)
Definition ignore_list : list string :=
  list_set stopwords_english
  ++ ["0"; "1"; "2"; "3"; "4"; "5"; "6"; "7"; "8"; "9"]
  ++ str_chars punctuation
  ++ ["-"; "+"; "*"; "/"; "."; "("; ")"; "&"; "|"]
  ++ ["video"; "youtube"; "new"; "get"; "ft"].

Definition remove_stopwords (words : list string) : list string :=
  filter (fun w => negb (existsb (String.eqb (str_lower w)) ignore_list))
         words.

Definition stop_title (v : Video) : Video :=
  match v_title v with
  | TitleStr s => set_title v (TitleList (remove_stopwords (str_chars s)))
  | TitleList l => set_title v (TitleList (remove_stopwords l))
  end.

(** Iterating over [None] is a [TypeError]. *)
Definition stop_tags (v : Video) : result Video :=
  match v_tags v with
  | Some tags => Ok (set_tags v (Some (remove_stopwords tags)))
  | None => Err TypeError
  end.

End VideoMethods.

(** *** Floats

    A Python [float] that is a number is a binary64 value.  It is kept
    here exactly, as the integer that counts it in units of [2^-1074], the
    smallest positive float: [9 * 2^1072] is 2.25.  (The sign of a zero is
    not kept.) *)
Definition pyfloat : Type := Z.

Definition float_unit : Z := 2 ^ 1074.

(** [2^1024] in units: the first value that is too large for a float. *)
Definition float_limit : Z := 2 ^ 2098.

(** The integer nearest to [n / d], for [0 < d]; of two that are equally
    near, the even one. *)
Definition round_half_even (n d : Z) : Z :=
  let q := (n / d)%Z in
  let r := (n mod d)%Z in
  if (2 * r <? d)%Z then q
  else if (d <? 2 * r)%Z then (q + 1)%Z
  else if Z.even q then q else (q + 1)%Z.

(** The float nearest to [a / d], for [0 <= a] and [0 < d], ties to the
    even mantissa: the quotient is rounded to 53 significant bits, or to a
    whole number of units when it is that small.  [None] when the rounded
    value does not fit a float. *)
Definition nearest_float (a d : Z) : option pyfloat :=
  let n := (a * float_unit)%Z in
  let e := Z.max 0 (Z.log2 (n / d) - 52) in
  let x := (round_half_even n (d * 2 ^ e) * 2 ^ e)%Z in
  if (float_limit <=? x)%Z then None else Some x.

(** The same for a quotient of either sign, [d] not zero; what does not fit
    is an [OverflowError]. *)
Definition signed_nearest_float (n d : Z) : result pyfloat :=
  match nearest_float (Z.abs n) (Z.abs d) with
  | Some x => Ok (Z.sgn n * Z.sgn d * x)%Z
  | None => Err OverflowError
  end.

(** [n / d] on two [int]s: the correctly rounded quotient. *)
Definition int_truediv (n d : Z) : result pyfloat :=
  if (d =? 0)%Z then Err ZeroDivisionError else signed_nearest_float n d.

(** [round(x, 2)] on a float: the value is rounded to a whole number of
    hundredths, half to even, and the float nearest to that decimal is
    returned. *)
Definition float_round2 (x : pyfloat) : result pyfloat :=
  signed_nearest_float (round_half_even (100 * x) float_unit) 100.

(** [round(self.likes/self.dislikes, 2)] *)
Definition like_ratio (v : Video) : result pyfloat :=
  q <- int_truediv (v_likes v) (v_dislikes v) ;;
  float_round2 q.

(** ** The [Trending] class *)

(** A [dict] from [str] to [int], in insertion order. *)
Definition dict : Type := list (string * Z).

(** [d[k] = v]: a key that is present keeps its place. *)
Fixpoint dict_set (d : dict) (k : string) (v : Z) : dict :=
  match d with
  | [] => [(k, v)]
  | (k', v') :: r =>
      if String.eqb k' k then (k', v) :: r else (k', v') :: dict_set r k v
  end.

(** [dict(items)] *)
Definition dict_of_items (items : list (string * Z)) : dict :=
  fold_left (fun d kv => dict_set d (fst kv) (snd kv)) items [].

(** [d.get(k)] *)
Fixpoint dict_get (d : dict) (k : string) : option Z :=
  match d with
  | [] => None
  | (k', v) :: r => if String.eqb k' k then Some v else dict_get r k
  end.

(** [sorted(items, key=lambda kv: kv[1])].  Python's sort is stable, and a
    stable sort has one possible result; it is computed here by insertion,
    an item going in front of the first item whose value is not smaller. *)
Fixpoint insert_by_value (kv : string * Z) (l : list (string * Z))
  : list (string * Z) :=
  match l with
  | [] => [kv]
  | kv' :: r =>
      if (snd kv <=? snd kv')%Z then kv :: kv' :: r
      else kv' :: insert_by_value kv r
  end.

Fixpoint sorted_by_value (l : list (string * Z)) : list (string * Z) :=
  match l with
  | [] => []
  | kv :: r => insert_by_value kv (sorted_by_value r)
  end.

(** One step of a comprehension [{x: f(x) for x in l if p(x)}]. *)
Definition table_step (p : string -> bool) (f : string -> Z)
           (d : dict) (x : string) : dict :=
  if p x then dict_set d x (f x) else d.

(** [{x: l.count(x) for x in l if l.count(x) >= threshold}] *)
Definition count_table (threshold : Z) (l : list string) : dict :=
  fold_left
    (table_step (fun x => (threshold <=? list_count l x)%Z) (list_count l))
    l [].

(** The two frequency methods share their body. *)
Definition frequencies (threshold : Z) (l : list string) : dict :=
  dict_of_items (sorted_by_value (count_table threshold l)).

Record Trending : Type := mkTrending {
  t_videos : list Video;
  t_titles : list string;
  t_tags : list string;
  t_title_frequencies : dict;
  t_tag_frequencies : dict;
  t_date : option Z
}.

(** [Trending()] *)
Definition new_trending : Trending := mkTrending [] [] [] [] [] None.

Definition find_title_frequencies (threshold : Z) (t : Trending) : Trending :=
  mkTrending (t_videos t) (t_titles t) (t_tags t)
             (frequencies threshold (t_titles t)) (t_tag_frequencies t)
             (t_date t).

Definition find_tag_frequencies (threshold : Z) (t : Trending) : Trending :=
  mkTrending (t_videos t) (t_titles t) (t_tags t)
             (t_title_frequencies t) (frequencies threshold (t_tags t))
             (t_date t).

(** [if name:] holds for a string that is neither [None] nor empty,
    [elif index:] for an integer that is neither [None] nor zero. *)
Definition name_given (name : option string) : option string :=
  match name with
  | Some s => if str_is_empty s then None else Some s
  | None => None
  end.

Definition index_given (index : option Z) : option Z :=
  match index with
  | Some i => if (i =? 0)%Z then None else Some i
  | None => None
  end.

(** One branch of [count], on the flat sequence [l].  The inner [None] is
    the value [None] that falling off the end of the function returns. *)
Definition count_in (l : list string) (name : option string)
           (index : option Z) : result (option Z) :=
  match name_given name with
  | Some s => Ok (Some (list_count l s))
  | None =>
      match index_given index with
      | Some i => x <- list_getitem l i ;; Ok (Some (list_count l x))
      | None => Ok None
      end
  end.

Definition count (title tag : bool) (name : option string)
           (index : option Z) (t : Trending) : result (option Z) :=
  if title then count_in (t_titles t) name index
  else if tag then count_in (t_tags t) name index
  else Ok None.

(** A record of the metadata service: [snippet.tags] and
    [statistics.commentCount] may be missing. *)
Record ApiItem : Type := mkApiItem {
  item_id : string;
  snippet_title : string;
  snippet_tags : option (list string);
  content_duration : string;
  status_made_for_kids : bool;
  stat_view_count : Z;
  stat_like_count : Z;
  stat_dislike_count : Z;
  stat_comment_count : option Z
}.

(** [s.index(c)] and [s[n:]] *)
Fixpoint str_index (c : ascii) (s : string) : result nat :=
  match s with
  | EmptyString => Err ValueError
  | String c' r => if Ascii.eqb c' c then Ok 0%nat
                   else i <- str_index c r ;; Ok (S i)
  end.

Fixpoint str_from (n : nat) (s : string) : string :=
  match n, s with
  | O, _ => s
  | S _, EmptyString => ""
  | S m, String _ r => str_from m r
  end.

(** The loop over the thumbnail elements: [hrefs] holds the [href]
    attribute of each, [None] where there is none. *)
Fixpoint thumbnail_ids (hrefs : list (option string)) : result (list string) :=
  match hrefs with
  | [] => Ok []
  | None :: r => thumbnail_ids r
  | Some url :: r =>
      if str_is_empty url then thumbnail_ids r
      else
        i <- str_index "="%char url ;;
        ids <- thumbnail_ids r ;;
        Ok (str_from (i + 1) url :: ids)
  end.

(** [ids[a:b]] for [a <= b] *)
Definition list_slice (ids : list string) (a b : nat) : list string :=
  firstn (b - a) (skipn a ids).

Definition num : nat := 50.

Section TrendingMethods.

Variable list_set : list string -> list string.
Variable stopwords_english : list string.

(** [youtube.list(part=_part, fields=_fields, id=id_list).execute()['items']] *)
Variable youtube_list : list string -> list ApiItem.

(** The [Video] built from one record of the service. *)
Definition video_of_item (video : ApiItem) : Video :=
  mkVideo (item_id video)
          (TitleStr (snippet_title video))
          (match snippet_tags video with
           | Some tags => Some (list_set (map str_lower tags))
           | None => Some []
           end)
          (content_duration video)
          (stat_view_count video)
          (stat_like_count video)
          (stat_dislike_count video)
          (match stat_comment_count video with
           | Some n => n
           | None => 0%Z
           end)
          (Some (status_made_for_kids video)).

(** The [while not finished] loop.  [calls] is the log of the [id_list]
    arguments handed to the service, in the order of the calls. *)
Equations? fetch_loop (ids : list string) (count : nat)
          (videos : list Video) (calls : list (list string))
  : list Video * list (list string)
  by wf (List.length ids - count) lt :=
  fetch_loop ids count videos calls
    with lt_dec (count + num) (List.length ids) := {
    | left _ =>
        let id_list := list_slice ids count (count + num) in
        fetch_loop ids (count + num)
                   (videos ++ map video_of_item (youtube_list id_list))
                   (calls ++ [id_list]);
    | right _ =>
        let id_list := skipn count ids in
        (videos ++ map video_of_item (youtube_list id_list),
         calls ++ [id_list]) }.
Proof. unfold num in *. lia. Qed.

(** [get_videos]: [hrefs] is what the browser session finds on the page,
    [now] is [datetime.datetime.utcnow()].  The second component is the
    log of the calls to the service. *)
Definition get_videos (hrefs : list (option string)) (now : Z)
           (t : Trending) : result (Trending * list (list string)) :=
  ids <- thumbnail_ids hrefs ;;
  let '(videos, calls) := fetch_loop ids 0 (t_videos t) [] in
  Ok (mkTrending videos (t_titles t) (t_tags t) (t_title_frequencies t)
                 (t_tag_frequencies t) (Some now),
      calls).

(** The body of the loop of [combine_tags] up to the [extend]. *)
Definition combine_tags_body (split combine stop_words : bool) (v : Video)
  : result Video :=
  v1 <- (if split then split_tags list_set combine v else Ok v) ;;
  if stop_words then stop_tags list_set stopwords_english v1 else Ok v1.

(** [self._tags.extend(vid.tags)] *)
Definition extend_tags (flat : list string) (v : Video)
  : result (list string) :=
  match v_tags v with
  | Some tags => Ok (flat ++ tags)
  | None => Err TypeError
  end.

(** The loop of [combine_tags]: the videos as the loop leaves them, and
    the flat tag sequence. *)
Fixpoint combine_tags_loop (split combine stop_words : bool)
         (vs : list Video) (flat : list string)
  : result (list Video * list string) :=
  match vs with
  | [] => Ok ([], flat)
  | v :: r =>
      if has_tags v then
        v' <- combine_tags_body split combine stop_words v ;;
        flat' <- extend_tags flat v' ;;
        p <- combine_tags_loop split combine stop_words r flat' ;;
        Ok (v' :: fst p, snd p)
      else
        p <- combine_tags_loop split combine stop_words r flat ;;
        Ok (v :: fst p, snd p)
  end.

Definition combine_tags (split combine stop_words : bool) (t : Trending)
  : result Trending :=
  p <- combine_tags_loop split combine stop_words (t_videos t) (t_tags t) ;;
  Ok (mkTrending (fst p) (t_titles t) (snd p) (t_title_frequencies t)
                 (t_tag_frequencies t) (t_date t)).

End TrendingMethods.

(** What [list.extend(title)] appends: the characters of a title that is
    still a [str], the words of one that is a list. *)
Definition title_items (title : PyTitle) : list string :=
  match title with
  | TitleStr s => str_chars s
  | TitleList l => l
  end.

Section TrendingCombine.

Variable list_set : list string -> list string.
Variable stopwords_english : list string.

(** The body of the loop of [combine_titles] up to the [extend]. *)
Definition combine_titles_body (split combine stop_words : bool) (v : Video)
  : result Video :=
  v1 <- (if split then split_title list_set combine v else Ok v) ;;
  Ok (if stop_words then stop_title list_set stopwords_english v1 else v1).

Fixpoint combine_titles_loop (split combine stop_words : bool)
         (vs : list Video) (flat : list string)
  : result (list Video * list string) :=
  match vs with
  | [] => Ok ([], flat)
  | v :: r =>
      v' <- combine_titles_body split combine stop_words v ;;
      p <- combine_titles_loop split combine stop_words r
                               (flat ++ title_items (v_title v')) ;;
      Ok (v' :: fst p, snd p)
  end.

Definition combine_titles (split combine stop_words : bool) (t : Trending)
  : result Trending :=
  p <- combine_titles_loop split combine stop_words
                           (t_videos t) (t_titles t) ;;
  Ok (mkTrending (fst p) (snd p) (t_tags t) (t_title_frequencies t)
                 (t_tag_frequencies t) (t_date t)).

(** The body of the loop of [combine] up to the two [extend]s. *)
Definition combine_body (split combine stop_words : bool) (v : Video)
  : result Video :=
  v1 <- (if split
         then v0 <- split_title list_set combine v ;;
              split_tags list_set combine v0
         else Ok v) ;;
  if stop_words
  then stop_tags list_set stopwords_english
                 (stop_title list_set stopwords_english v1)
  else Ok v1.

(** The loop of [combine]: the videos as the loop leaves them, the flat
    title sequence and the flat tag sequence. *)
Fixpoint combine_loop (split combine stop_words : bool)
         (vs : list Video) (titles tags : list string)
  : result (list Video * (list string * list string)) :=
  match vs with
  | [] => Ok ([], (titles, tags))
  | v :: r =>
      v' <- combine_body split combine stop_words v ;;
      let titles' := titles ++ title_items (v_title v') in
      tags' <- extend_tags tags v' ;;
      p <- combine_loop split combine stop_words r titles' tags' ;;
      Ok (v' :: fst p, snd p)
  end.

Definition combine (split combine stop_words : bool) (t : Trending)
  : result Trending :=
  p <- combine_loop split combine stop_words
                    (t_videos t) (t_titles t) (t_tags t) ;;
  Ok (mkTrending (fst p) (fst (snd p)) (snd (snd p)) (t_title_frequencies t)
                 (t_tag_frequencies t) (t_date t)).

End TrendingCombine.

(** What [bar_plot] puts on the screen: one bar per entry of the table,
    in the order of the table, labelled with the key; the caption; and the
    bound of the ticks on the axis of the counts. *)
Record Chart : Type := mkChart {
  chart_bars : dict;
  chart_title : string;
  chart_ticks : Z
}.

(** [max(vals)]: a [ValueError] when there is no value. *)
Definition max_value (vals : list Z) : result Z :=
  match vals with
  | [] => Err ValueError
  | x :: r => Ok (fold_left Z.max r x)
  end.

Section BarPlot.

(** [date.strftime("%Y-%m-%d %H:%M:%S")] *)
Variable strftime : Z -> string.

(** The drawing half of [bar_plot], from the creation of the figure on.
    The calls into the plotting library are taken to return; what can
    raise in between is [self._date.strftime], when no date was recorded,
    and then [max(vals)], when the table is empty. *)
Definition draw_bars (table : dict) (plot_title : string) (t : Trending)
  : result (option Chart) :=
  date <- match t_date t with
          | Some d => Ok (strftime d)
          | None => Err AttributeError
          end ;;
  top <- max_value (map snd table) ;;
  Ok (Some (mkChart table
                    (plot_title ++ String (ascii_of_nat 10) date)%string
                    (top + 2)%Z)).

(** [bar_plot]: the state it leaves, also when it raises, and its outcome:
    the chart shown, or [None] when it returns without drawing because no
    selector is set. *)
Definition bar_plot (title tag : bool) (threshold : Z) (t : Trending)
  : Trending * result (option Chart) :=
  if title then
    let t' := match t_title_frequencies t with
              | [] => find_title_frequencies threshold t
              | _ :: _ => t
              end in
    (t', draw_bars
           (t_title_frequencies t')
           "Frequency of Words from YouTube Video Titles on the Trending Page"
           t')
  else if tag then
    let t' := match t_tag_frequencies t with
              | [] => find_tag_frequencies threshold t
              | _ :: _ => t
              end in
    (t', draw_bars
           (t_tag_frequencies t')
           "Frequency of a Given Tag on the YouTube Trending Page"
           t')
  else (t, Ok None).

End BarPlot.

(** [len(self)] *)
Definition trending_len (t : Trending) : nat := List.length (t_videos t).

(** ** Vocabulary of the statements *)

(** What the language guarantees of [list(set(l))]. *)
Definition set_order_ok (list_set : list string -> list string) : Prop :=
  (forall l, NoDup (list_set l))
  /\ (forall l x, In x (list_set l) <-> In x l).

(** One concrete iteration order: the elements in the order in which they
    are first met. *)
Definition first_seen_set (l : list string) : list string :=
  rev (nodup string_dec (rev l)).

Definition starts_punct (w : string) : bool :=
  match str_first w with
  | Some a => in_punctuation a
  | None => false
  end.

Definition ends_punct (w : string) : bool :=
  match str_last w with
  | Some b => in_punctuation b
  | None => false
  end.

(** One layer of punctuation taken off the front, and off the back. *)
Definition lstrip1 (w : string) : string :=
  if starts_punct w then drop_first w else w.

Definition rstrip1 (w : string) : string :=
  if ends_punct w then drop_last w else w.

(** A token list as the specification wants it: no empty token, no token
    with punctuation at either end, no token twice. *)
Definition clean_tokens (t : list string) : Prop :=
  Forall (fun x => x <> "" /\ starts_punct x = false /\ ends_punct x = false) t
  /\ NoDup t.

(** The place of the first occurrence of [x] in [l]. *)
Fixpoint first_index (x : string) (l : list string) : nat :=
  match l with
  | [] => 0
  | y :: r => if String.eqb y x then 0 else S (first_index x r)
  end.

(** The order of a frequency table over the flat sequence [l]: by count,
    and among equal counts by first occurrence in [l]. *)
Definition count_then_first (l : list string) (a b : string * Z) : Prop :=
  (snd a < snd b)%Z
  \/ (snd a = snd b /\ first_index (fst a) l < first_index (fst b) l).

(** The order a stable sort by value produces from a list in which
    [before a b] holds of every [a] placed before [b]. *)
Definition value_then_before (before : string * Z -> string * Z -> Prop)
           (a b : string * Z) : Prop :=
  (snd a < snd b)%Z \/ (snd a = snd b /\ before a b).

(** A video that has only an identifier, a title and tags. *)
Definition video_with (title : PyTitle) (tags : option (list string)) : Video :=
  mkVideo "id" title tags "" 0 0 0 0 None.

(** [d] is the frequency table of the flat sequence [l] at threshold [k]:
    a map, from each element of [l] that occurs at least [k] times to the
    number of its occurrences, and ordered by [count_then_first]. *)
Definition frequency_table_of (k : Z) (l : list string) (d : dict) : Prop :=
  NoDup (map fst d)
  /\ (forall x c, dict_get d x = Some c
                  <-> In x l /\ c = list_count l x /\ (k <= c)%Z)
  /\ Forall (fun kv => (k <= snd kv)%Z) d
  /\ StronglySorted (count_then_first l) d.

(** The tags a video holds, none for [None]. *)
Definition tag_list (v : Video) : list string :=
  match v_tags v with
  | Some tags => tags
  | None => []
  end.

(** What one video adds to the flat tag sequence: [v] is the video before
    the loop body, [v'] after it. *)
Definition tags_added (vv : Video * Video) : list string :=
  if has_tags (fst vv) then tag_list (snd vv) else [].

(** [combine_tags] as the specification words it: a video is skipped when
    its tags are [None], and every other video goes through the loop
    body. *)
Definition tags_are_null (v : Video) : bool :=
  match v_tags v with
  | None => true
  | Some _ => false
  end.

Fixpoint combine_tags_loop_skipping_null
         (list_set : list string -> list string)
         (stopwords_english : list string)
         (split combine stop_words : bool)
         (vs : list Video) (flat : list string)
  : result (list Video * list string) :=
  match vs with
  | [] => Ok ([], flat)
  | v :: r =>
      if tags_are_null v then
        p <- combine_tags_loop_skipping_null
               list_set stopwords_english split combine stop_words r flat ;;
        Ok (v :: fst p, snd p)
      else
        v' <- combine_tags_body list_set stopwords_english
                                split combine stop_words v ;;
        flat' <- extend_tags flat v' ;;
        p <- combine_tags_loop_skipping_null
               list_set stopwords_english split combine stop_words r flat' ;;
        Ok (v' :: fst p, snd p)
  end.

(** Python's [l[i]] reads place [i mod len(l)] for an index within
    [-len(l) <= i < len(l)]. *)
Definition item_at (l : list string) (i : Z) : string :=
  nth (Z.to_nat (i mod Z.of_nat (List.length l))) l "".

(** A video that has only an identifier and its likes and dislikes. *)
Definition video_counting (likes dislikes : Z) : Video :=
  mkVideo "id" (TitleStr "") None "" 0 likes dislikes 0 None.

(** A clock that prints every date alike, for the examples. *)
Definition clock_text (date : Z) : string := "2020-01-01 00:00:00".

(** Values for the examples. *)
Definition trending_of (titles tags : list string) : Trending :=
  mkTrending [] titles tags [] [] None.

Definition trending_with (videos : list Video) : Trending :=
  mkTrending videos [] [] [] [] None.

(** A service that answers each identifier, in the order of the request,
    with a record that has neither tags nor a comment count. *)
Definition bare_item (i : string) : ApiItem :=
  mkApiItem i "" None "" false 0 0 0 None.

Definition bare_service (ids : list string) : list ApiItem :=
  map bare_item ids.

(** A page of [n] thumbnails, each linking to a video of its own. *)
Definition page_of (n : nat) : list (option string) :=
  map (fun k => Some ("/watch?v=" ++ String (ascii_of_nat (48 + k)) "")%string)
      (seq 0 n).

Definition ids_of (n : nat) : list string :=
  map (fun k => String (ascii_of_nat (48 + k)) "") (seq 0 n).

(** The tags of a record of the service, none when the field is missing. *)
Definition tag_list_of (video : ApiItem) : list string :=
  match snippet_tags video with
  | Some tags => tags
  | None => []
  end.

(** [if url:] holds for an [href] that is there and is not empty. *)
Definition is_link (href : option string) : bool :=
  match href with
  | Some url => negb (str_is_empty url)
  | None => false
  end.

(** A string without white space. *)
Fixpoint no_space (s : string) : bool :=
  match s with
  | EmptyString => true
  | String c r => negb (is_space c) && no_space r
  end.

(** The entries [__remove_stopwords] adds to the stop words. *)
Definition custom_ignore : list string :=
  ["0"; "1"; "2"; "3"; "4"; "5"; "6"; "7"; "8"; "9"]
  ++ str_chars punctuation
  ++ ["-"; "+"; "*"; "/"; "."; "("; ")"; "&"; "|"]
  ++ ["video"; "youtube"; "new"; "get"; "ft"].

(** Two lists with the same elements. *)
Definition same_elements (l l' : list string) : Prop :=
  forall x, In x l <-> In x l'.

(** The sum of the counts of a table. *)
Definition sum_values (d : dict) : Z :=
  fold_right Z.add 0%Z (map snd d).

(** A link to a video: a prefix, an equals sign, the identifier. *)
Definition link_to (prefix i : string) : option string :=
  Some (prefix ++ String "="%char i)%string.

(** [c] does not occur in [s]. *)
Fixpoint str_lacks (c : ascii) (s : string) : bool :=
  match s with
  | EmptyString => true
  | String c' r => negb (Ascii.eqb c' c) && str_lacks c r
  end.

(** A service that answers each identifier with a record that carries the
    tags [tags]. *)
Definition tagged_service (tags : list string) (ids : list string)
  : list ApiItem :=
  map (fun i => mkApiItem i "" (Some tags) "" false 0 0 0 None) ids.

(** ** Strings: facts *)

Lemma str_is_empty_false (s : string) : str_is_empty s = false <-> s <> "".
Proof. destruct s; simpl; split; congruence. Qed.

(** [split] never yields an empty word. *)
Lemma split_from_nonempty (s cur : string) :
  Forall (fun w => w <> "") (split_from cur s).
Proof.
  revert cur. induction s as [|c r IH]; intro cur; simpl.
  - destruct (str_is_empty cur) eqn:E; constructor.
    + now apply str_is_empty_false.
    + constructor.
  - destruct (is_space c).
    + destruct (str_is_empty cur) eqn:E; [apply IH|].
      constructor; [now apply str_is_empty_false | apply IH].
    + apply IH.
Qed.

Lemma str_split_nonempty (s : string) : Forall (fun w => w <> "") (str_split s).
Proof. apply split_from_nonempty. Qed.

Lemma str_last_cons (a b : ascii) (r : string) :
  str_last (String a (String b r)) = str_last (String b r).
Proof. reflexivity. Qed.

Lemma str_last_some (a : ascii) (r : string) :
  exists b, str_last (String a r) = Some b.
Proof.
  revert a. induction r as [|c r IH]; intro a.
  - now exists a.
  - rewrite str_last_cons. apply IH.
Qed.

(** The three cases of the loop amount to taking one layer off the front
    and then one off the back. *)
Lemma strip_punct_layers (w : string) :
  w <> "" -> strip_punct w = Ok (rstrip1 (lstrip1 w)).
Proof.
  intro Hw. destruct w as [|a r]; [congruence|]. clear Hw.
  unfold strip_punct, rstrip1, lstrip1, starts_punct, ends_punct.
  destruct r as [|b r].
  - simpl. destruct (in_punctuation a) eqn:Ea; simpl; rewrite ?Ea; reflexivity.
  - rewrite str_last_cons.
    destruct (str_last_some b r) as [z Hz].
    cbn [str_first drop_first]. rewrite Hz.
    destruct (in_punctuation a) eqn:Ea, (in_punctuation z) eqn:Ez;
      cbn [andb negb]; rewrite ?str_last_cons, ?Hz, ?Ez; reflexivity.
Qed.

Lemma strip_words_layers (ws : list string) :
  Forall (fun w => w <> "") ws ->
  strip_words ws =
  Ok (filter (fun x => negb (str_is_empty x))
             (map (fun w => rstrip1 (lstrip1 w)) ws)).
Proof.
  induction 1 as [|w ws Hw _ IH]; [reflexivity|].
  cbn [strip_words map filter]. rewrite (strip_punct_layers w Hw), IH.
  cbn [bind]. destruct (str_is_empty (rstrip1 (lstrip1 w))); reflexivity.
Qed.

Lemma first_seen_set_ok : set_order_ok first_seen_set.
Proof.
  split; intro l; unfold first_seen_set.
  - apply NoDup_rev, NoDup_nodup.
  - intro x. rewrite <- in_rev, nodup_In, <- in_rev. tauto.
Qed.

(** ** Dictionaries and frequency tables: facts *)

Lemma dict_set_absent (d : dict) (k : string) (v : Z) :
  ~ In k (map fst d) -> dict_set d k v = d ++ [(k, v)].
Proof.
  induction d as [|[k' v'] d IH]; simpl; intro H; [reflexivity|].
  destruct (String.eqb_spec k' k) as [->|_]; [tauto|].
  rewrite IH; tauto.
Qed.

Lemma dict_set_same (d : dict) (k : string) (v : Z) :
  In k (map fst d) -> (forall v', In (k, v') d -> v' = v) ->
  dict_set d k v = d.
Proof.
  induction d as [|[k' v'] d IH]; simpl; intros Hin Hv; [tauto|].
  destruct (String.eqb_spec k' k) as [->|Hne].
  - now rewrite (Hv v') by auto.
  - rewrite IH; [reflexivity | tauto | auto].
Qed.

Lemma first_index_app (x : string) (l r : list string) :
  In x l -> first_index x (l ++ r) = first_index x l.
Proof.
  induction l as [|y l IH]; simpl; [tauto|]. intros [->|H].
  - now rewrite String.eqb_refl.
  - destruct (String.eqb y x); [reflexivity|]. now rewrite IH.
Qed.

Lemma first_index_lt (x : string) (l : list string) :
  In x l -> first_index x l < List.length l.
Proof.
  induction l as [|y l IH]; simpl; [tauto|]. intros [->|H].
  - rewrite String.eqb_refl. lia.
  - destruct (String.eqb y x); [lia|]. apply IH in H. lia.
Qed.

Lemma first_index_fresh (x : string) (l : list string) :
  ~ In x l -> first_index x (l ++ [x]) = List.length l.
Proof.
  induction l as [|y l IH]; simpl; intro H.
  - now rewrite String.eqb_refl.
  - destruct (String.eqb_spec y x) as [->|_]; [tauto|].
    rewrite IH; tauto.
Qed.

Lemma StronglySorted_snoc {A : Type} (R : A -> A -> Prop) (l : list A) (a : A) :
  StronglySorted R l -> Forall (fun y => R y a) l ->
  StronglySorted R (l ++ [a]).
Proof.
  induction 1 as [|b l Hs IH Hb]; intro Ha; simpl.
  - repeat constructor.
  - inversion Ha; subst. constructor; [auto|].
    apply Forall_app. split; [assumption | now constructor].
Qed.

Lemma StronglySorted_weaken {A : Type} (R R' : A -> A -> Prop) (l : list A) :
  (forall a b, In a l -> In b l -> R a b -> R' a b) ->
  StronglySorted R l -> StronglySorted R' l.
Proof.
  intros HR Hs. induction Hs as [|b l Hs IH Hb]; constructor.
  - apply IH. intros; apply HR; simpl; auto.
  - rewrite Forall_forall in *. intros y Hy.
    apply HR; simpl; auto.
Qed.

(** The table of a comprehension: its keys are the elements that pass
    the filter, each once, in the order of their first occurrence. *)
Lemma table_of_comprehension (p : string -> bool) (f : string -> Z)
      (l : list string) :
  let d := fold_left (table_step p f) l [] in
  NoDup (map fst d)
  /\ (forall x v, In (x, v) d <-> In x l /\ p x = true /\ v = f x)
  /\ StronglySorted
       (fun a b => first_index (fst a) l < first_index (fst b) l) d.
Proof.
  induction l as [|x l IH] using rev_ind; simpl.
  - split; [constructor | split; [|constructor]].
    intros x v. simpl. tauto.
  - rewrite fold_left_app. simpl.
    set (d := fold_left (table_step p f) l []) in *.
    destruct IH as (Hnd & Hin & Hs).
    assert (Hkeys : forall y, In y (map fst d) -> In y l).
    { intros y Hy. apply in_map_iff in Hy as ([y' v] & <- & Hy).
      now apply Hin in Hy. }
    assert (Hold : StronglySorted
              (fun a b => first_index (fst a) (l ++ [x])
                          < first_index (fst b) (l ++ [x])) d).
    { revert Hs. apply StronglySorted_weaken. intros a b Ha Hb.
      rewrite !first_index_app; auto; apply Hkeys, in_map; assumption. }
    assert (Hcase :
              (table_step p f d x = d /\ (p x = false \/ In x l))
              \/ (table_step p f d x = d ++ [(x, f x)]
                  /\ p x = true /\ ~ In x l)).
    { unfold table_step. destruct (p x) eqn:Hp; [|left; auto].
      destruct (in_dec string_dec x (map fst d)) as [Hk|Hk].
      - left. split; [|right; auto].
        apply dict_set_same; auto.
        intros v' Hv'. now apply Hin in Hv'.
      - right. split; [now apply dict_set_absent|]. split; auto.
        intro H. apply Hk. apply (in_map fst d (x, f x)).
        apply Hin. auto. }
    destruct Hcase as [[-> Hc] | (-> & Hp & Hx)].
    + split; [assumption|]. split; [|assumption].
      intros y v. rewrite Hin, in_app_iff. simpl. split; [tauto|].
      intros ([H|[<-|[]]] & H2 & H3); auto.
      destruct Hc; [congruence | auto].
    + split; [|split].
      * rewrite map_app. simpl.
        apply NoDup_app; [assumption | repeat constructor; simpl; tauto |].
        intros y Hy [<-|[]]. auto.
      * intros y v. rewrite !in_app_iff, Hin. simpl. split.
        -- intros [(H1 & H2 & H3)|[H|[]]]; [tauto|].
           inversion H; subst. auto.
        -- intros ([H|[<-|[]]] & H2 & H3); [left; auto|].
           right. left. now subst.
      * apply StronglySorted_snoc; [assumption|].
        apply Forall_forall. intros [y v] Hy. simpl.
        assert (In y l) by (apply Hkeys, (in_map fst d (y, v)), Hy).
        rewrite first_index_app, first_index_fresh by assumption.
        now apply first_index_lt.
Qed.

(** The sort: a permutation, in the order of the values, two items of one
    value staying in the order they came in. *)
Lemma insert_by_value_perm (kv : string * Z) (l : list (string * Z)) :
  Permutation (insert_by_value kv l) (kv :: l).
Proof.
  induction l as [|kv' l IH]; simpl; [reflexivity|].
  destruct (snd kv <=? snd kv')%Z; [reflexivity|].
  rewrite IH. apply perm_swap.
Qed.

Lemma sorted_by_value_perm (l : list (string * Z)) :
  Permutation (sorted_by_value l) l.
Proof.
  induction l as [|kv l IH]; simpl; [reflexivity|].
  rewrite insert_by_value_perm. now constructor.
Qed.

Section StableSort.

(** [before a b]: [a] came before [b] in the list that is sorted. *)
Variable before : string * Z -> string * Z -> Prop.

Lemma value_then_before_le (a b : string * Z) :
  (snd a <= snd b)%Z -> before a b -> value_then_before before a b.
Proof.
  intros Hle Hb. unfold value_then_before.
  destruct (Z.eq_dec (snd a) (snd b)); [right; auto | left; lia].
Qed.

Lemma value_then_before_le_inv (a b : string * Z) :
  value_then_before before a b -> (snd a <= snd b)%Z.
Proof. unfold value_then_before. lia. Qed.

Lemma insert_by_value_sorted (kv : string * Z) (l : list (string * Z)) :
  StronglySorted (value_then_before before) l ->
  Forall (before kv) l ->
  StronglySorted (value_then_before before) (insert_by_value kv l).
Proof.
  induction 1 as [|b l Hs IH Hb]; intro Hkv; simpl.
  - repeat constructor.
  - inversion Hkv as [|? ? Hkb Hkl]; subst.
    destruct (Z.leb_spec (snd kv) (snd b)) as [Hle|Hlt].
    + constructor; [now constructor|].
      rewrite Forall_forall in *. intros z [<-|Hz].
      * now apply value_then_before_le.
      * specialize (Hb z Hz). apply value_then_before_le_inv in Hb.
        apply value_then_before_le; [lia | auto].
    + constructor; [auto|].
      rewrite Forall_forall in *. intros z Hz.
      apply (Permutation_in _ (insert_by_value_perm kv l)) in Hz.
      destruct Hz as [<-|Hz]; [|auto].
      left. lia.
Qed.

Lemma sorted_by_value_sorted (l : list (string * Z)) :
  StronglySorted before l ->
  StronglySorted (value_then_before before) (sorted_by_value l).
Proof.
  induction 1 as [|a l Hs IH Ha]; simpl; [constructor|].
  apply insert_by_value_sorted; [assumption|].
  rewrite Forall_forall in *. intros z Hz. apply Ha.
  now apply (Permutation_in _ (sorted_by_value_perm l)).
Qed.

End StableSort.

(** [dict(items)] keeps a list of items with distinct keys as it is. *)
Lemma dict_of_items_from (items acc : list (string * Z)) :
  NoDup (map fst (acc ++ items)) ->
  fold_left (fun d kv => dict_set d (fst kv) (snd kv)) items acc
  = acc ++ items.
Proof.
  revert acc. induction items as [|kv items IH]; intros acc Hnd; simpl.
  - now rewrite app_nil_r.
  - assert (Hk : ~ In (fst kv) (map fst acc)).
    { rewrite map_app in Hnd. simpl in Hnd.
      apply NoDup_remove_2 in Hnd. rewrite in_app_iff in Hnd. tauto. }
    rewrite dict_set_absent by assumption.
    destruct kv as [k v]. simpl.
    rewrite IH; rewrite <- app_assoc; [reflexivity | assumption].
Qed.

Lemma dict_of_items_nodup (items : list (string * Z)) :
  NoDup (map fst items) -> dict_of_items items = items.
Proof. intro H. unfold dict_of_items. now rewrite dict_of_items_from. Qed.

Lemma dict_get_in (d : dict) (k : string) (v : Z) :
  NoDup (map fst d) -> (dict_get d k = Some v <-> In (k, v) d).
Proof.
  induction d as [|[k' v'] d IH]; simpl; intro Hnd.
  - split; [discriminate | tauto].
  - inversion Hnd as [|? ? Hk Hd]; subst.
    destruct (String.eqb_spec k' k) as [->|Hne].
    + split.
      * intros [= ->]. auto.
      * intros [[= ->]|H]; [reflexivity|].
        exfalso. apply Hk. apply (in_map fst d (k, v)), H.
    + rewrite (IH Hd). split; [auto|].
      intros [[= -> ->]|H]; [congruence | assumption].
Qed.

(** The body shared by the two frequency methods. *)
Lemma frequencies_table (k : Z) (l : list string) :
  let d := frequencies k l in
  NoDup (map fst d)
  /\ (forall x c, dict_get d x = Some c
                  <-> In x l /\ c = list_count l x /\ (k <= c)%Z)
  /\ StronglySorted (count_then_first l) d.
Proof.
  destruct (table_of_comprehension
              (fun x => (k <=? list_count l x)%Z) (list_count l) l)
    as (Hnd & Hin & Hs).
  fold (count_table k l) in Hnd, Hin, Hs.
  assert (Hp : Permutation (sorted_by_value (count_table k l))
                           (count_table k l))
    by apply sorted_by_value_perm.
  assert (Hnd' : NoDup (map fst (sorted_by_value (count_table k l)))).
  { apply (Permutation_NoDup (l := map fst (count_table k l)));
      [|assumption].
    apply Permutation_map. now symmetry. }
  unfold frequencies. rewrite dict_of_items_nodup by assumption.
  cbv zeta. split; [assumption|]. split.
  - intros x c. rewrite (dict_get_in _ x c Hnd'). split.
    + intro H. apply (Permutation_in _ Hp) in H. apply Hin in H.
      destruct H as (H1 & H2 & ->). repeat split; auto.
      now apply Z.leb_le.
    + intros (H1 & -> & H3).
      apply (Permutation_in _ (Permutation_sym Hp)). apply Hin.
      repeat split; auto. now apply Z.leb_le.
  - apply sorted_by_value_sorted, Hs.
Qed.

(** ** The batches of [get_videos]: facts *)

Lemma list_slice_num (ids : list string) (start : nat) :
  start + num < List.length ids ->
  List.length (list_slice ids start (start + num)) = num
  /\ list_slice ids start (start + num) ++ skipn (start + num) ids
     = skipn start ids.
Proof.
  intro H. unfold list_slice.
  replace (start + num - start) with num by lia. split.
  - rewrite length_firstn, length_skipn. lia.
  - rewrite (Nat.add_comm start num), <- skipn_skipn.
    apply firstn_skipn.
Qed.

(** The loop started at [start]: every call but the last takes [num]
    identifiers, the last takes what is left, and the videos built from
    the answers are appended in the order of the calls. *)
Lemma fetch_loop_batches
      (list_set : list string -> list string)
      (youtube_list : list string -> list ApiItem)
      (ids : list string) (start : nat)
      (videos : list Video) (calls : list (list string)) :
  start <= List.length ids ->
  exists front final,
    fetch_loop list_set youtube_list ids start videos calls
    = (videos ++ map (video_of_item list_set)
                     (flat_map youtube_list (front ++ [final])),
       calls ++ front ++ [final])
    /\ List.concat (front ++ [final]) = skipn start ids
    /\ Forall (fun c => List.length c = num) front
    /\ List.length final <= num
    /\ (start < List.length ids -> final <> []).
Proof.
  funelim (fetch_loop list_set youtube_list ids start videos calls);
    intro Hle.
  - match goal with
    | Hlt : _ + num < _ |- _ =>
        destruct (list_slice_num _ _ Hlt) as [Hlen Hcat]
    end.
    match goal with
    | IH : _ -> exists _ _, _ |- _ =>
        destruct IH as (front & final & Hrun & Hc & Hf & Hl & Hne); [lia|]
    end.
    match goal with
    | Hlt : ?c + num < _ |- _ =>
        exists (list_slice ids c (c + num) :: front), final
    end.
    rewrite Hrun. cbn [app flat_map List.concat]. repeat split.
    + rewrite map_app, <- !app_assoc. reflexivity.
    + rewrite Hc. exact Hcat.
    + now constructor.
    + assumption.
    + intros _. apply Hne. lia.
  - match goal with
    | |- context [skipn ?c ids] => exists [], (skipn c ids)
    end.
    cbn [app flat_map List.concat].
    rewrite !app_nil_r. repeat split.
    + constructor.
    + rewrite length_skipn. lia.
    + intros Hlt Hnil. apply (f_equal (@List.length string)) in Hnil.
      rewrite length_skipn in Hnil. simpl in Hnil. lia.
Qed.

(** ** [combine_tags]: facts *)

Lemma has_tags_false (v : Video) :
  has_tags v = false <-> v_tags v = None \/ v_tags v = Some [].
Proof.
  unfold has_tags. destruct (v_tags v) as [[|x l]|]; split; intro H;
    try discriminate; auto; destruct H; discriminate.
Qed.

(** The loop body does not raise on a video that passes the filter, and
    leaves it with a tag list. *)
Lemma combine_tags_body_ok
      (list_set : list string -> list string) (stopwords_english : list string)
      (split combine stop_words : bool) (v : Video) :
  has_tags v = true ->
  exists v',
    combine_tags_body list_set stopwords_english split combine stop_words v
    = Ok v'
    /\ v_tags v' = Some (tag_list v').
Proof.
  unfold has_tags, combine_tags_body, split_tags, stop_tags, tag_list.
  destruct (v_tags v) as [[|x l]|] eqn:Hv; try discriminate. intros _.
  destruct split, stop_words; cbn [bind set_tags v_tags]; rewrite ?Hv;
    (eexists; split;
     [reflexivity | cbn [set_tags v_tags]; rewrite ?Hv; reflexivity]).
Qed.

Lemma combine_tags_loop_ok
      (list_set : list string -> list string) (stopwords_english : list string)
      (split combine stop_words : bool) (vs : list Video) (flat : list string) :
  exists vs',
    combine_tags_loop list_set stopwords_english split combine stop_words
                      vs flat
    = Ok (vs', flat ++ flat_map tags_added (List.combine vs vs'))
    /\ Forall2
         (fun v v' =>
            if has_tags v
            then combine_tags_body list_set stopwords_english
                                   split combine stop_words v = Ok v'
            else v' = v)
         vs vs'.
Proof.
  revert flat. induction vs as [|v vs IH]; intro flat; cbn [combine_tags_loop].
  - exists []. cbn. rewrite app_nil_r. split; constructor.
  - destruct (has_tags v) eqn:Hv.
    + destruct (combine_tags_body_ok list_set stopwords_english
                  split combine stop_words v Hv) as (v' & Hb & Ht).
      rewrite Hb. cbn [bind]. unfold extend_tags. rewrite Ht.
      destruct (IH (flat ++ tag_list v')) as (vs' & Hl & Hf).
      cbn [bind]. rewrite Hl. cbn [bind fst snd]. exists (v' :: vs').
      cbn [List.combine flat_map]. unfold tags_added at 2. cbn [fst snd].
      rewrite Hv, <- app_assoc. split; [reflexivity|].
      constructor; [now rewrite Hv | assumption].
    + destruct (IH flat) as (vs' & Hl & Hf).
      rewrite Hl. cbn [bind fst snd]. exists (v :: vs').
      cbn [List.combine flat_map]. unfold tags_added at 2. cbn [fst snd].
      rewrite Hv. cbn [app]. split; [reflexivity|].
      constructor; [now rewrite Hv | assumption].
Qed.

(** ** [count]: facts *)

Lemma list_getitem_in_range (l : list string) (i : Z) :
  (- Z.of_nat (List.length l) <= i < Z.of_nat (List.length l))%Z ->
  list_getitem l i = Ok (item_at l i).
Proof.
  intro Hi. unfold list_getitem, item_at.
  set (n := Z.of_nat (List.length l)) in *.
  assert (Hj : ((if i <? 0 then i + n else i) = i mod n)%Z).
  { destruct (Z.ltb_spec i 0).
    - apply Z.mod_unique with (q := (-1)%Z); lia.
    - symmetry. apply Z.mod_small. lia. }
  rewrite Hj.
  assert (Hr : (0 <= i mod n < n)%Z) by (apply Z.mod_pos_bound; lia).
  destruct (Z.ltb_spec (i mod n) 0); [lia|].
  destruct (Z.leb_spec n (i mod n)); [lia|]. cbn [orb].
  destruct (nth_error l (Z.to_nat (i mod n))) as [x|] eqn:Hx.
  - now rewrite (nth_error_nth _ _ _ Hx).
  - apply nth_error_None in Hx. lia.
Qed.

Lemma count_in_name (l : list string) (x : string) (index : option Z) :
  x <> "" -> count_in l (Some x) index = Ok (Some (list_count l x)).
Proof.
  intro Hx. unfold count_in, name_given.
  apply str_is_empty_false in Hx. now rewrite Hx.
Qed.

Lemma count_in_index (l : list string) (i : Z) :
  (i <> 0)%Z ->
  (- Z.of_nat (List.length l) <= i < Z.of_nat (List.length l))%Z ->
  count_in l None (Some i) = Ok (Some (list_count l (item_at l i))).
Proof.
  intros Hz Hi. unfold count_in, name_given, index_given.
  apply Z.eqb_neq in Hz. rewrite Hz, (list_getitem_in_range _ _ Hi).
  reflexivity.
Qed.

(** ** The frequency tables *)

Lemma frequencies_is_table (k : Z) (l : list string) :
  frequency_table_of k l (frequencies k l).
Proof.
  destruct (frequencies_table k l) as (Hnd & Hget & Hs).
  split; [assumption|]. split; [assumption|]. split; [|assumption].
  apply Forall_forall. intros [x c] Hx.
  apply (dict_get_in _ x c Hnd), Hget in Hx. tauto.
Qed.

(** C1.  For every flat tag sequence and every threshold [k],
    [find_tag_frequencies k] stores a table that maps each distinct element
    of the sequence that occurs at least [k] times to the number of its
    occurrences, holds no entry whose count is below [k], and is ordered by
    non-decreasing count, two entries of one count standing in the order
    of their first occurrences in the sequence; [find_title_frequencies]
    does the same over the flat title sequence.  Neither touches the flat
    sequences. *)
Theorem find_frequencies_table (k : Z) (t : Trending) :
  (frequency_table_of k (t_tags t)
                      (t_tag_frequencies (find_tag_frequencies k t))
   /\ t_tags (find_tag_frequencies k t) = t_tags t)
  /\ (frequency_table_of k (t_titles t)
                         (t_title_frequencies (find_title_frequencies k t))
      /\ t_titles (find_title_frequencies k t) = t_titles t).
Proof.
  split; (split; [apply frequencies_is_table | reflexivity]).
Qed.

(** ** [count] *)

(** C4, as stated, fails on the empty string: it can be a key of a table,
    and [count] takes an empty [name] for a missing one. *)
Lemma count_of_empty_key :
  dict_get (t_title_frequencies
              (find_title_frequencies 1 (trending_of [""] []))) ""
  = Some 1%Z
  /\ count true false (Some "") None
           (find_title_frequencies 1 (trending_of [""] []))
     = Ok None.
Proof. split; reflexivity. Qed.

(** C4, amended.  For every key of a computed frequency table that is not
    the empty string, [count] with the matching selector and that key as
    [name], on the flat sequence the table was computed from, returns the
    count the table stores for it, whatever [index] is. *)
Theorem count_matches_table
        (k : Z) (t : Trending) (x : string) (c : Z) (index : option Z) :
  x <> "" ->
  (dict_get (t_title_frequencies (find_title_frequencies k t)) x = Some c ->
   count true false (Some x) index (find_title_frequencies k t)
   = Ok (Some c))
  /\ (dict_get (t_tag_frequencies (find_tag_frequencies k t)) x = Some c ->
      count false true (Some x) index (find_tag_frequencies k t)
      = Ok (Some c)).
Proof.
  intro Hx. split; intro Hget; cbn in Hget |- *;
    apply frequencies_is_table in Hget; destruct Hget as (_ & -> & _);
    now apply count_in_name.
Qed.

Lemma count_matches_table_witness :
  count true false (Some "a") None
        (find_title_frequencies 2 (trending_of ["a"; "b"; "a"] ["b"; "a"; "b"]))
  = Ok (Some 2%Z)
  /\ count false true (Some "b") (Some 0%Z)
           (find_tag_frequencies 2 (trending_of ["a"; "b"; "a"] ["b"; "a"; "b"]))
     = Ok (Some 2%Z).
Proof.
  split.
  - apply (count_matches_table
             2 (trending_of ["a"; "b"; "a"] ["b"; "a"; "b"]) "a" 2 None);
      [discriminate | reflexivity].
  - apply (count_matches_table
             2 (trending_of ["a"; "b"; "a"] ["b"; "a"; "b"]) "b" 2
             (Some 0%Z));
      [discriminate | reflexivity].
Defined.

(** C7.  [count] at the index zero: the flat title sequence holds one
    element, its place zero holds ["a"], which occurs once, and [count]
    returns [None] where the count of the element at that place is 1. *)
Theorem count_at_index_zero :
  count true false None (Some 0%Z) (trending_of ["a"] []) = Ok None
  /\ list_getitem (t_titles (trending_of ["a"] [])) 0 = Ok "a"
  /\ list_count (t_titles (trending_of ["a"] [])) "a" = 1%Z.
Proof. repeat split. Qed.

(** C9, as stated, fails on a negative index: it is not strictly positive
    and selects the last element. *)
Lemma count_at_negative_index :
  (-1 < 0)%Z
  /\ count true false None (Some (-1)%Z) (trending_of ["b"; "a"; "a"] [])
     = Ok (Some 2%Z)
  /\ count false true None (Some (-1)%Z) (trending_of [] ["b"; "a"; "a"])
     = Ok (Some 2%Z).
Proof. repeat split. Qed.

(** C9, amended.  With a selector set and no name, [count] at the index
    zero returns [None], as it does with no index, and not the count of
    the first element; every other index within the sequence selects an
    element, a positive one counted from the start and a negative one from
    the end, and [count] returns the number of occurrences of that
    element.  [l] is the flat sequence the selectors pick: the titles when
    [title] is set, the tags otherwise. *)
Theorem count_by_index (title tag : bool) (t : Trending) (i : Z) :
  let l := if title then t_titles t else t_tags t in
  title || tag = true ->
  (i <> 0)%Z ->
  (- Z.of_nat (List.length l) <= i < Z.of_nat (List.length l))%Z ->
  count title tag None (Some 0%Z) t = Ok None
  /\ count title tag None None t = Ok None
  /\ count title tag None (Some 0%Z) t
     <> Ok (Some (list_count l (item_at l 0)))
  /\ count title tag None (Some i) t
     = Ok (Some (list_count l (item_at l i))).
Proof.
  intros l Hsel Hz Hi. unfold count.
  destruct title; [|destruct tag; [|discriminate]];
    (repeat split; [discriminate | now apply count_in_index]).
Qed.

Lemma count_by_index_witness :
  count true false None (Some 0%Z) (trending_of ["b"; "a"; "a"] []) = Ok None
  /\ count true false None None (trending_of ["b"; "a"; "a"] []) = Ok None
  /\ count true false None (Some 0%Z) (trending_of ["b"; "a"; "a"] [])
     <> Ok (Some 1%Z)
  /\ count true false None (Some (-2)%Z) (trending_of ["b"; "a"; "a"] [])
     = Ok (Some 2%Z).
Proof.
  apply (count_by_index true false (trending_of ["b"; "a"; "a"] []) (-2));
    [reflexivity | discriminate | simpl; lia].
Defined.

(** ** [split_title] *)

(** C3, as stated, fails for either value of [combine]: with [combine]
    the original title comes first and a title of one word is held twice,
    and an empty title is held as an empty element; without it, a word
    that ends in two punctuation characters keeps one. *)
Lemma split_title_not_clean :
  (split_title first_seen_set true (video_with (TitleStr "Top") None)
   = Ok (video_with (TitleList ["Top"; "Top"]) None)
   /\ ~ clean_tokens ["Top"; "Top"])
  /\ (split_title first_seen_set true (video_with (TitleStr "") None)
      = Ok (video_with (TitleList [""]) None)
      /\ ~ clean_tokens [""])
  /\ (split_title first_seen_set false (video_with (TitleStr "a!!") None)
      = Ok (video_with (TitleList ["a!"]) None)
      /\ ~ clean_tokens ["a!"]).
Proof.
  repeat split; intros [Hall Hnd].
  - inversion Hnd as [|? ? Hin _]; subst. apply Hin. now left.
  - inversion Hall as [|? ? [Hx _] _]; subst. now apply Hx.
  - inversion Hall as [|? ? (_ & _ & Hx) _]; subst. discriminate Hx.
Qed.

(** C3, amended.  On a title that is a string, and for any iteration
    order of a set, [split_title] succeeds.  Let [t] be the tokens: they
    hold no duplicate, and a string is a token exactly when it is not empty
    and is a white-space-delimited word of the title with one punctuation
    character taken off its front, if it starts with one, and then one
    taken off its back, if it ends with one (what punctuation lies under
    that layer stays).  The title becomes [t] without [combine], and the
    original title followed by [t] with it.  For the title
    ["Top 10 (AMAZING) Moments!"] the tokens are exactly
    Top, 10, AMAZING and Moments. *)
Theorem split_title_tokens
        (list_set : list string -> list string)
        (v : Video) (s : string) (combine : bool) :
  set_order_ok list_set ->
  v_title v = TitleStr s ->
  exists t,
    split_title list_set combine v
    = Ok (set_title v (TitleList (if combine then s :: t else t)))
    /\ NoDup t
    /\ (forall x, In x t <->
                  x <> "" /\ exists w, In w (str_split s)
                                       /\ x = rstrip1 (lstrip1 w))
    /\ (s = "Top 10 (AMAZING) Moments!" ->
        forall x, In x t <-> In x ["Top"; "10"; "AMAZING"; "Moments"]).
Proof.
  intros [Hnd Hin] Hs. unfold split_title. rewrite Hs.
  rewrite (strip_words_layers _ (str_split_nonempty s)). cbn [bind].
  eexists. split; [reflexivity|]. split; [apply Hnd|]. split.
  - intro x. rewrite Hin, filter_In, in_map_iff, negb_true_iff,
      str_is_empty_false.
    split.
    + intros [(w & <- & Hw) Hx]. split; [assumption|]. now exists w.
    + intros [Hx (w & Hw & ->)]. split; [|assumption]. now exists w.
  - intros -> x. rewrite Hin. reflexivity.
Qed.

Lemma split_title_tokens_witness :
  exists t,
    split_title first_seen_set false
                (video_with (TitleStr "Top 10 (AMAZING) Moments!") None)
    = Ok (video_with (TitleList t) None)
    /\ NoDup t
    /\ forall x, In x t <-> In x ["Top"; "10"; "AMAZING"; "Moments"].
Proof.
  destruct (split_title_tokens
              first_seen_set
              (video_with (TitleStr "Top 10 (AMAZING) Moments!") None)
              "Top 10 (AMAZING) Moments!" false
              first_seen_set_ok eq_refl)
    as (t & Hrun & Hnd & _ & Hex).
  exists t. split; [exact Hrun|]. split; [exact Hnd|]. exact (Hex eq_refl).
Defined.

(** ** [split_tags] *)

(** C5, as stated, fails on a tag list that is empty: it is not null, and
    [split_tags] raises for either value of [combine] where the claim has
    it store the empty list of tokens. *)
Lemma split_tags_of_empty_list :
  v_tags (video_with (TitleStr "") (Some [])) <> None
  /\ split_tags first_seen_set false (video_with (TitleStr "") (Some []))
     = Err TypeError
  /\ split_tags first_seen_set true (video_with (TitleStr "") (Some []))
     = Err TypeError.
Proof. repeat split. discriminate. Qed.

(** C5, amended.  For every video whose tags are null or an empty list,
    [split_tags] fails, with either value of [combine], with the
    [TypeError] the specification names [InvalidStateError]; for every
    video with a tag list that is not empty it splits each tag on white
    space, keeps each resulting token once, and stores those tokens in
    place of the tags, or after the tags when [combine] is set. *)
Theorem split_tags_cases
        (list_set : list string -> list string) (v : Video) (combine : bool) :
  set_order_ok list_set ->
  match v_tags v with
  | None | Some [] => split_tags list_set combine v = Err TypeError
  | Some tags =>
      exists t,
        split_tags list_set combine v
        = Ok (set_tags v (Some (if combine then tags ++ t else t)))
        /\ NoDup t
        /\ forall x, In x t <-> exists tag, In tag tags /\ In x (str_split tag)
  end.
Proof.
  intros [Hnd Hin]. unfold split_tags.
  destruct (v_tags v) as [[|tag tags]|]; try reflexivity.
  eexists. split; [reflexivity|]. split; [apply Hnd|].
  intro x. rewrite Hin. apply in_flat_map.
Qed.

Lemma split_tags_cases_witness :
  split_tags first_seen_set true (video_with (TitleStr "") None)
  = Err TypeError
  /\ exists t,
      split_tags first_seen_set false
                 (video_with (TitleStr "")
                             (Some ["funny cats"; "funny"; "cats dogs"]))
      = Ok (video_with (TitleStr "") (Some t))
      /\ NoDup t
      /\ forall x, In x t <->
                   exists tag, In tag ["funny cats"; "funny"; "cats dogs"]
                               /\ In x (str_split tag).
Proof.
  split.
  - exact (split_tags_cases first_seen_set (video_with (TitleStr "") None)
                            true first_seen_set_ok).
  - exact (split_tags_cases
             first_seen_set
             (video_with (TitleStr "")
                         (Some ["funny cats"; "funny"; "cats dogs"]))
             false first_seen_set_ok).
Defined.

(** ** [like_ratio] *)

Section FloatFacts.

Local Open Scope Z_scope.

(** Rounding to the nearest integer: at most one half away, and even at
    one half. *)
Lemma round_half_even_near (n d : Z) :
  0 < d ->
  let m := round_half_even n d in
  - d <= 2 * (n - m * d) <= d
  /\ (2 * (n - m * d) = d \/ 2 * (n - m * d) = - d -> Z.even m = true).
Proof.
  intro Hd. cbv zeta. unfold round_half_even.
  pose proof (Z.div_mod n d ltac:(lia)) as Hdm.
  pose proof (Z.mod_pos_bound n d Hd) as Hr.
  destruct (Z.ltb_spec (2 * (n mod d)) d) as [H1|H1].
  - split; [nia|]. intros [H|H]; nia.
  - destruct (Z.ltb_spec d (2 * (n mod d))) as [H2|H2].
    + split; [nia|]. intros [H|H]; nia.
    + destruct (Z.even (n / d)) eqn:He.
      * split; [nia|]. intros _. exact He.
      * split; [nia|]. intros _.
        rewrite Z.even_add, He. reflexivity.
Qed.

Lemma round_half_even_ge (n d m : Z) :
  0 < d -> m * d <= n -> m <= round_half_even n d.
Proof.
  intros Hd H. destruct (round_half_even_near n d Hd) as [Hb _]. nia.
Qed.

Lemma round_half_even_le (n d m : Z) :
  0 < d -> 2 * n < (2 * m + 1) * d -> round_half_even n d <= m.
Proof.
  intros Hd H. destruct (round_half_even_near n d Hd) as [Hb _]. nia.
Qed.

Lemma round_half_even_ge_half (n d m : Z) :
  0 < d -> Z.even m = true -> (2 * m - 1) * d <= 2 * n ->
  m <= round_half_even n d.
Proof.
  intros Hd Hm H. destruct (round_half_even_near n d Hd) as [Hb Heven].
  assert (Hc : m - 1 <= round_half_even n d) by nia.
  destruct (Z.eq_dec (round_half_even n d) (m - 1)) as [E|E]; [|lia].
  exfalso. assert (Ht : 2 * (n - round_half_even n d * d) = d) by nia.
  specialize (Heven (or_introl Ht)). rewrite E in Heven.
  replace (m - 1) with (Z.pred m) in Heven by lia.
  rewrite Z.even_pred in Heven.
  rewrite <- Z.negb_even, Hm in Heven. discriminate.
Qed.


Lemma float_exponent (n d : Z) :
  0 <= n -> 0 < d ->
  let e := Z.max 0 (Z.log2 (n / d) - 52) in
  0 <= e
  /\ (e = 0 -> n < d * 2 ^ 53)
  /\ (0 < e -> d * 2 ^ (e + 52) <= n /\ n < d * 2 ^ (e + 53)).
Proof.
  intros Hn Hd. cbv zeta.
  pose proof (Z.div_mod n d ltac:(lia)) as Hdm.
  pose proof (Z.mod_pos_bound n d Hd) as Hr.
  assert (Hf : 0 <= n / d) by (apply Z.div_pos; lia).
  split; [lia|].
  destruct (Z.eq_dec (n / d) 0) as [H0|H0].
  - rewrite H0. cbn [Z.log2]. split; [|intro H; cbn in H; lia].
    intros _. assert (n < d) by nia.
    assert (1 <= 2 ^ 53) by lia. nia.
  - pose proof (Z.log2_spec (n / d) ltac:(lia)) as [Hlo Hhi].
    pose proof (Z.log2_nonneg (n / d)) as Hlg.
    set (lg := Z.log2 (n / d)) in *.
    destruct (Z.le_gt_cases lg 52) as [Hle|Hgt].
    + rewrite Z.max_l by lia. split; [|lia]. intros _.
      assert (2 ^ Z.succ lg <= 2 ^ 53) by (apply Z.pow_le_mono_r; lia).
      nia.
    + rewrite Z.max_r by lia. split; [lia|]. intros _.
      replace (lg - 52 + 52) with lg by lia.
      replace (lg - 52 + 53) with (Z.succ lg) by lia.
      split; nia.
Qed.

(** The core of [nearest_float], on a numerator counted in units. *)
Lemma nearest_core (n d : Z) :
  0 <= n -> 0 < d ->
  let e := Z.max 0 (Z.log2 (n / d) - 52) in
  let x := round_half_even n (d * 2 ^ e) * 2 ^ e in
  (2 ^ 2098 <= x <-> (2 ^ 2098 - 2 ^ 2044) * d <= n)
  /\ (x < 2 ^ 2098 -> 0 <= x <= 2 ^ 2098 - 2 ^ 2045)
  /\ 2 ^ 53 * Z.abs (x * d - n) <= 2 ^ 52 * d + n.
Proof.
  intros Hn Hd.
  destruct (float_exponent n d Hn Hd) as (He0 & Hsub & Hnorm).
  cbv zeta. set (e := Z.max 0 (Z.log2 (n / d) - 52)) in *.
  assert (Hp : 0 < 2 ^ e) by (apply Z.pow_pos_nonneg; lia).
  assert (HD : 0 < d * 2 ^ e) by nia.
  destruct (round_half_even_near n (d * 2 ^ e) HD) as [Hnear _].
  pose proof (round_half_even_ge n (d * 2 ^ e)) as Hge.
  pose proof (round_half_even_le n (d * 2 ^ e)) as Hle.
  pose proof (round_half_even_ge_half n (d * 2 ^ e)) as Hhalf.
  set (m := round_half_even n (d * 2 ^ e)) in *.
  assert (Hm0 : 0 <= m) by (apply Hge; [assumption | lia]).
  assert (Hm53 : m <= 2 ^ 53).
  { apply Hle; [assumption|].
    destruct (Z.eq_dec e 0) as [E|E].
    - specialize (Hsub E). rewrite E in *. change (2 ^ 0) with 1 in *. nia.
    - destruct (Hnorm ltac:(lia)) as [_ Hhi].
      rewrite Z.pow_add_r in Hhi by lia. nia. }
  assert (Hm52 : 0 < e -> 2 ^ 52 <= m).
  { intro Hpos. apply Hge; [assumption|].
    destruct (Hnorm Hpos) as [Hlo _].
    rewrite Z.pow_add_r in Hlo by lia. nia. }
  assert (Ht98 : 2 ^ 2098 = 2 ^ 53 * 2 ^ 2045) by reflexivity.
  assert (Ht44 : 2 * 2 ^ 2044 = 2 ^ 2045) by reflexivity.
  assert (Ht : 0 < 2 ^ 2045) by reflexivity.
  assert (Hcmp : (e <= 2044 /\ 2 * 2 ^ e <= 2 ^ 2045)
                 \/ (e = 2045 /\ 2 ^ e = 2 ^ 2045)
                 \/ (2046 <= e /\ 2 * 2 ^ 2045 <= 2 ^ e)).
  { destruct (Z.le_gt_cases e 2044) as [H|H].
    - left. split; [assumption|].
      replace (2 * 2 ^ e) with (2 ^ (e + 1))
        by (rewrite Z.pow_add_r by lia; lia).
      apply Z.pow_le_mono_r; lia.
    - destruct (Z.eq_dec e 2045) as [E|E].
      + right; left. split; [assumption | now rewrite E].
      + right. right. split; [lia|].
        replace (2 * 2 ^ 2045) with (2 ^ 2046) by reflexivity.
        apply Z.pow_le_mono_r; lia. }
  rewrite Ht98. clear Ht98.
  assert (H53 : 2 ^ 53 = 9007199254740992) by reflexivity.
  assert (H52 : 2 ^ 52 = 4503599627370496) by reflexivity.
  rewrite H53, H52 in *.
  assert (Hsub' : e = 0 -> 2 ^ e = 1) by (intros ->; reflexivity).
  assert (Hn1 : 0 < e -> d * 2 ^ e * 4503599627370496 <= n).
  { intro Hpos. destruct (Hnorm Hpos) as [Hlo _].
    rewrite Z.pow_add_r, H52 in Hlo by lia. lia. }
  specialize (Hhalf 9007199254740992 HD eq_refl).
  clear Hnorm Hsub Hge Hle.
  set (t := 2 ^ 2045) in *. set (s := 2 ^ 2044) in *.
  set (p := 2 ^ e) in *. clearbody t s p m.
  split; [|split].
  - split.
    + intro Hov.
      destruct Hcmp as [[Hs Hps]|[[Hs Hps]|[Hs Hps]]].
      * exfalso. nia.
      * subst p. assert (m = 9007199254740992) by nia. subst m.
        nia.
      * specialize (Hn1 ltac:(lia)). nia.
    + intro Hbig.
      destruct Hcmp as [[Hs Hps]|[[Hs Hps]|[Hs Hps]]].
      * exfalso.
        destruct (Z.eq_dec e 0) as [E|E].
        -- specialize (Hsub' E). nia.
        -- specialize (Hm52 ltac:(lia)). nia.
      * subst p. assert (9007199254740992 <= m) by (apply Hhalf; nia).
        nia.
      * specialize (Hm52 ltac:(lia)). nia.
  - intro Hlt. split; [nia|].
    destruct Hcmp as [[Hs Hps]|[[Hs Hps]|[Hs Hps]]].
    + nia.
    + subst p. assert (m <= 9007199254740991) by nia. nia.
    + exfalso. specialize (Hm52 ltac:(lia)). nia.
  - destruct (Z.eq_dec e 0) as [E|E].
    + specialize (Hsub' E). rewrite Hsub' in *. lia.
    + specialize (Hn1 ltac:(lia)).
      assert (2 * Z.abs (m * p * d - n) <= d * p) by lia.
      lia.
Qed.

Lemma float_constants :
  2 ^ 2098 - 2 ^ 2044 = (2 ^ 1024 - 2 ^ 970) * float_unit
  /\ 2 ^ 2098 - 2 ^ 2045 = (2 ^ 1024 - 2 ^ 971) * float_unit
  /\ 0 < float_unit
  /\ 2 ^ 1024 - 2 ^ 971 < 2 ^ 1024 - 2 ^ 970.
Proof. repeat split. Qed.

(** A quotient is too large for a float from [2^1024 - 2^970] on, half
    way between the largest float and [2^1024]. *)
Lemma nearest_float_none (a d : Z) :
  0 <= a -> 0 < d ->
  (nearest_float a d = None <-> (2 ^ 1024 - 2 ^ 970) * d <= a).
Proof.
  intros Ha Hd. unfold nearest_float.
  destruct float_constants as (Hc & _ & Hu & _).
  destruct (nearest_core (a * float_unit) d ltac:(nia) Hd) as (Hov & _).
  cbv zeta in Hov |- *. unfold float_limit. rewrite Hc in Hov.
  set (c := 2 ^ 1024 - 2 ^ 970) in *. clearbody c.
  set (u := float_unit) in *. clearbody u.
  destruct (Z.leb_spec (2 ^ 2098)
              (round_half_even (a * u)
                 (d * 2 ^ Z.max 0 (Z.log2 (a * u / d) - 52))
               * 2 ^ Z.max 0 (Z.log2 (a * u / d) - 52))) as [H|H].
  - split; [intros _ | reflexivity]. apply Hov in H. nia.
  - split; [discriminate|]. intro Hc'. exfalso.
    assert (2 ^ 2098 <= round_half_even (a * u)
                 (d * 2 ^ Z.max 0 (Z.log2 (a * u / d) - 52))
               * 2 ^ Z.max 0 (Z.log2 (a * u / d) - 52)) by (apply Hov; nia).
    lia.
Qed.

(** The float that [nearest_float] returns is at most the largest float,
    and is off the quotient by at most half a unit or, if that is more,
    by the quotient times [2^-53]. *)
Lemma nearest_float_some (a d x : Z) :
  0 <= a -> 0 < d -> nearest_float a d = Some x ->
  0 <= x <= (2 ^ 1024 - 2 ^ 971) * float_unit
  /\ 2 ^ 53 * Z.abs (x * d - a * float_unit)
     <= 2 ^ 52 * d + a * float_unit.
Proof.
  intros Ha Hd. unfold nearest_float.
  destruct float_constants as (_ & Hc & Hu & _).
  destruct (nearest_core (a * float_unit) d ltac:(nia) Hd)
    as (_ & Hmax & Hacc).
  cbv zeta in Hmax, Hacc |- *. unfold float_limit. rewrite Hc in Hmax.
  destruct (Z.leb_spec (2 ^ 2098)
              (round_half_even (a * float_unit)
                 (d * 2 ^ Z.max 0 (Z.log2 (a * float_unit / d) - 52))
               * 2 ^ Z.max 0 (Z.log2 (a * float_unit / d) - 52)))
    as [H|H]; [discriminate|].
  intros [= <-]. split; [now apply Hmax | exact Hacc].
Qed.

Lemma signed_nearest_float_overflow (n d : Z) :
  d <> 0 ->
  (signed_nearest_float n d = Err OverflowError
   <-> (2 ^ 1024 - 2 ^ 970) * Z.abs d <= Z.abs n).
Proof.
  intro Hd. unfold signed_nearest_float.
  pose proof (nearest_float_none (Z.abs n) (Z.abs d) ltac:(lia) ltac:(lia))
    as Hnone.
  destruct (nearest_float (Z.abs n) (Z.abs d)) as [x|].
  - split; [discriminate|]. intro H. apply Hnone in H. discriminate.
  - split; [intros _ | reflexivity]. now apply Hnone.
Qed.

Lemma signed_nearest_float_ok (n d : Z) :
  d <> 0 ->
  Z.abs n < (2 ^ 1024 - 2 ^ 970) * Z.abs d ->
  exists r,
    signed_nearest_float n d = Ok r
    /\ Z.abs r <= (2 ^ 1024 - 2 ^ 971) * float_unit
    /\ 2 ^ 53 * Z.abs (r * d - n * float_unit)
       <= 2 ^ 52 * Z.abs d + Z.abs n * float_unit.
Proof.
  intros Hd Hlt. unfold signed_nearest_float.
  pose proof (nearest_float_none (Z.abs n) (Z.abs d) ltac:(lia) ltac:(lia))
    as Hnone.
  destruct (nearest_float (Z.abs n) (Z.abs d)) as [x|] eqn:Hx.
  - destruct (nearest_float_some (Z.abs n) (Z.abs d) x
                                 ltac:(lia) ltac:(lia) Hx)
      as [Hmax Hacc].
    eexists. split; [reflexivity|].
    set (c := (2 ^ 1024 - 2 ^ 971) * float_unit) in *. clearbody c.
    set (u := float_unit) in *. clearbody u.
    assert (H53 : 2 ^ 53 = 9007199254740992) by reflexivity.
    assert (H52 : 2 ^ 52 = 4503599627370496) by reflexivity.
    rewrite H53, H52 in *.
    destruct (Z.sgn_spec n) as [[Hn ->]|[[Hn ->]|[Hn ->]]];
      destruct (Z.sgn_spec d) as [[Hd' ->]|[[Hd' ->]|[Hd' ->]]];
      try lia; (split; [lia|]).
  - exfalso. assert ((2 ^ 1024 - 2 ^ 970) * Z.abs d <= Z.abs n)
      by now apply Hnone.
    lia.
Qed.

(** Rounding to two decimals cannot overflow. *)
Lemma float_round2_ok (q : Z) :
  Z.abs q <= (2 ^ 1024 - 2 ^ 971) * float_unit ->
  let k := round_half_even (100 * q) float_unit in
  2 * Z.abs (100 * q - k * float_unit) <= float_unit
  /\ exists r,
      float_round2 q = Ok r
      /\ 2 ^ 53 * Z.abs (r * 100 - k * float_unit)
         <= 2 ^ 52 * 100 + Z.abs k * float_unit.
Proof.
  intros Hq k.
  destruct float_constants as (_ & _ & Hu & Hc).
  destruct (round_half_even_near (100 * q) float_unit Hu) as [Hnear _].
  fold k in Hnear.
  assert (Hk : Z.abs k < (2 ^ 1024 - 2 ^ 970) * Z.abs 100).
  { set (c1 := 2 ^ 1024 - 2 ^ 971) in *.
    set (c2 := 2 ^ 1024 - 2 ^ 970) in *. clearbody c1 c2.
    set (u := float_unit) in *. clearbody u k.
    change (Z.abs 100) with 100. nia. }
  split; [lia|].
  destruct (signed_nearest_float_ok k 100 ltac:(lia) Hk) as (r & Hr & _ & Ha).
  exists r. split; [exact Hr|]. exact Ha.
Qed.

End FloatFacts.




(** ** [get_videos] *)

Lemma v_id_video_of_item
      (list_set : list string -> list string) (items : list ApiItem) :
  map v_id (map (video_of_item list_set) items) = map item_id items.
Proof. rewrite map_map. reflexivity. Qed.

(** A service that answers in the order of the request answers a run of
    calls in the order of the identifiers. *)
Lemma answers_in_order
      (youtube_list : list string -> list ApiItem)
      (calls : list (list string)) :
  (forall c, map item_id (youtube_list c) = c) ->
  map item_id (flat_map youtube_list calls) = List.concat calls.
Proof.
  intro Hapi. induction calls as [|c calls IH]; [reflexivity|].
  cbn [flat_map List.concat]. now rewrite map_app, Hapi, IH.
Qed.

Lemma get_videos_run
      (list_set : list string -> list string)
      (youtube_list : list string -> list ApiItem)
      (hrefs : list (option string)) (now : Z) (t : Trending)
      (ids : list string) :
  thumbnail_ids hrefs = Ok ids ->
  exists front final,
    get_videos list_set youtube_list hrefs now t
    = Ok (mkTrending
            (t_videos t
             ++ map (video_of_item list_set)
                    (flat_map youtube_list (front ++ [final])))
            (t_titles t) (t_tags t) (t_title_frequencies t)
            (t_tag_frequencies t) (Some now),
          front ++ [final])
    /\ List.concat (front ++ [final]) = ids
    /\ Forall (fun c => List.length c = num) front
    /\ List.length final <= num
    /\ (ids <> [] -> final <> []).
Proof.
  intro Hids. unfold get_videos. rewrite Hids. cbn [bind].
  destruct (fetch_loop_batches list_set youtube_list ids 0 (t_videos t) [])
    as (front & final & Hrun & Hc & Hf & Hl & Hne); [lia|].
  exists front, final. rewrite Hrun. cbn [app].
  repeat split; try assumption.
  intro H. apply Hne. destruct ids; [congruence | simpl; lia].
Qed.

(** C2.  [get_videos] cuts the sequence of discovered identifiers into
    consecutive batches, each but the last of 50 identifiers and the last
    of at most 50 (and not empty unless nothing was discovered), calls the
    metadata service once per batch, in order, and appends the videos
    built from the answers in the order of the calls; when the service
    answers each call with one record per identifier in the order of the
    request, the identifiers of the appended videos are the discovered
    ones in the order of discovery.  A discovery of 120 identifiers is
    fetched in exactly three batches, of 50, 50 and 20. *)
Theorem get_videos_batches
        (list_set : list string -> list string)
        (youtube_list : list string -> list ApiItem)
        (hrefs : list (option string)) (now : Z) (t : Trending)
        (ids : list string) :
  thumbnail_ids hrefs = Ok ids ->
  (forall c, map item_id (youtube_list c) = c) ->
  exists front final,
    get_videos list_set youtube_list hrefs now t
    = Ok (mkTrending
            (t_videos t
             ++ map (video_of_item list_set)
                    (flat_map youtube_list (front ++ [final])))
            (t_titles t) (t_tags t) (t_title_frequencies t)
            (t_tag_frequencies t) (Some now),
          front ++ [final])
    /\ List.concat (front ++ [final]) = ids
    /\ Forall (fun c => List.length c = 50) front
    /\ List.length final <= 50
    /\ (ids <> [] -> final <> [])
    /\ map v_id (map (video_of_item list_set)
                     (flat_map youtube_list (front ++ [final])))
       = ids
    /\ (List.length ids = 120 ->
        map (@List.length string) (front ++ [final]) = [50; 50; 20]).
Proof.
  intros Hids Hapi.
  destruct (get_videos_run list_set youtube_list hrefs now t ids Hids)
    as (front & final & Hrun & Hc & Hf & Hl & Hne).
  exists front, final. unfold num in *.
  split; [assumption|]. split; [assumption|]. split; [assumption|].
  split; [assumption|]. split; [assumption|]. split.
  - now rewrite v_id_video_of_item, answers_in_order.
  - intro H120.
    assert (Hfin : final <> []).
    { apply Hne. intros ->. discriminate. }
    assert (Hpos : 0 < List.length final).
    { destruct final; [congruence | simpl; lia]. }
    rewrite <- Hc in H120.
    destruct front as [|a [|b [|c front]]];
      repeat match goal with
             | H : Forall _ (_ :: _) |- _ => inversion H; clear H; subst
             end;
      cbn [app List.concat map] in *;
      rewrite ?length_app in H120; cbn [List.length] in H120;
      try lia.
    repeat f_equal; lia.
Qed.

Lemma bare_service_in_order (c : list string) :
  map item_id (bare_service c) = c.
Proof.
  unfold bare_service. rewrite map_map. cbn [item_id bare_item].
  apply map_id.
Qed.

Lemma get_videos_batches_witness :
  exists front final,
    List.concat (front ++ [final]) = ids_of 120
    /\ map v_id (map (video_of_item first_seen_set)
                     (flat_map bare_service (front ++ [final])))
       = ids_of 120
    /\ map (@List.length string) (front ++ [final]) = [50; 50; 20].
Proof.
  destruct (get_videos_batches
              first_seen_set bare_service (page_of 120) 0 new_trending
              (ids_of 120) eq_refl bare_service_in_order)
    as (front & final & _ & Hc & _ & _ & _ & Hid & Hlen).
  exists front, final. split; [exact Hc|]. split; [exact Hid|].
  exact (Hlen eq_refl).
Defined.

(** C10.  [get_videos] appends one video per record the service answers,
    and the video of a record that lacks the tags field holds an empty tag
    list, not null; [split_tags] raises on an empty tag list the error it
    raises on a null one.  So [split_tags] fails on every video with an
    empty tag list, and on every fetched video that came without tags. *)
Theorem tagless_video_split_fails
        (list_set : list string -> list string)
        (youtube_list : list string -> list ApiItem)
        (hrefs : list (option string)) (now : Z) (t t' : Trending)
        (calls : list (list string)) (combine : bool) :
  get_videos list_set youtube_list hrefs now t = Ok (t', calls) ->
  t_videos t'
  = t_videos t ++ map (video_of_item list_set) (flat_map youtube_list calls)
  /\ (forall item,
         snippet_tags item = None ->
         v_tags (video_of_item list_set item) = Some []
         /\ split_tags list_set combine (video_of_item list_set item)
            = Err TypeError)
  /\ (forall v,
         v_tags v = Some [] ->
         split_tags list_set combine v = Err TypeError
         /\ split_tags list_set combine (set_tags v None) = Err TypeError).
Proof.
  intro Hrun. split; [|split].
  - unfold get_videos in Hrun.
    destruct (thumbnail_ids hrefs) as [ids|e] eqn:Hids; [|discriminate].
    destruct (get_videos_run list_set youtube_list hrefs now t ids Hids)
      as (front & final & Hrun' & _).
    unfold get_videos in Hrun'. rewrite Hids in Hrun'.
    rewrite Hrun' in Hrun. now inversion Hrun.
  - intros item Hitem. unfold split_tags, video_of_item. cbn [v_tags].
    now rewrite Hitem.
  - intros v Hv. unfold split_tags. cbn [set_tags v_tags]. now rewrite Hv.
Qed.

Lemma tagless_video_split_fails_witness :
  exists t' calls,
    get_videos first_seen_set bare_service (page_of 2) 0 new_trending
    = Ok (t', calls)
    /\ t_videos t' = map (video_of_item first_seen_set)
                         (flat_map bare_service calls)
    /\ Forall (fun v => v_tags v = Some []
                        /\ split_tags first_seen_set false v = Err TypeError)
              (t_videos t').
Proof.
  eexists. eexists. split; [reflexivity|].
  destruct (tagless_video_split_fails
              first_seen_set bare_service (page_of 2) 0 new_trending
              _ _ false eq_refl)
    as (Hvideos & Hitem & _).
  split; [exact Hvideos|].
  repeat constructor.
Defined.

(** ** [combine_tags] *)

(** C8, as stated, fails on a video whose tag list is empty: its tags are
    not null, so the claim has it go through the loop body, which raises
    when [split] is set; [combine_tags] skips it and returns. *)
Lemma combine_tags_skips_empty_list :
  tags_are_null (video_with (TitleStr "") (Some [])) = false
  /\ combine_tags_body first_seen_set [] true false false
                       (video_with (TitleStr "") (Some []))
     = Err TypeError
  /\ combine_tags_loop_skipping_null
       first_seen_set [] true false false
       [video_with (TitleStr "") (Some [])] []
     = Err TypeError
  /\ combine_tags first_seen_set [] true false false
                  (trending_with [video_with (TitleStr "") (Some [])])
     = Ok (trending_with [video_with (TitleStr "") (Some [])]).
Proof. now repeat split. Qed.

(** C8, amended.  For every aggregator state and every choice of the
    flags, [combine_tags] returns without raising.  It skips every owned
    video whose tags are null or an empty list: the video stays as it
    was and nothing of it reaches the flat tag sequence.  Every other
    video goes through the loop body, in order: it is replaced by what
    the body makes of it, and its tags after the body are appended to the
    flat tag sequence.  Nothing else of the state changes. *)
Theorem combine_tags_skips_untagged
        (list_set : list string -> list string)
        (stopwords_english : list string)
        (split combine stop_words : bool) (t : Trending) :
  exists vs',
    combine_tags list_set stopwords_english split combine stop_words t
    = Ok (mkTrending
            vs' (t_titles t)
            (t_tags t ++ flat_map tags_added (List.combine (t_videos t) vs'))
            (t_title_frequencies t) (t_tag_frequencies t) (t_date t))
    /\ Forall2
         (fun v v' =>
            if has_tags v
            then combine_tags_body list_set stopwords_english
                                   split combine stop_words v = Ok v'
            else v' = v)
         (t_videos t) vs'
    /\ (forall v, has_tags v = false
                  <-> v_tags v = None \/ v_tags v = Some []).
Proof.
  destruct (combine_tags_loop_ok list_set stopwords_english
              split combine stop_words (t_videos t) (t_tags t))
    as (vs' & Hrun & Hf).
  exists vs'. unfold combine_tags. rewrite Hrun. cbn [bind fst snd].
  split; [reflexivity|]. split; [assumption|]. apply has_tags_false.
Qed.

(** * Further properties of the code *)

(** ** Words *)

Lemma str_append_nil_r (s : string) : (s ++ "")%string = s.
Proof. induction s as [|c s IH]; simpl; [reflexivity | now rewrite IH]. Qed.

Lemma str_append_snoc (s r : string) (c : ascii) :
  ((s ++ String c "") ++ r)%string = (s ++ String c r)%string.
Proof. induction s as [|a s IH]; simpl; [reflexivity | now rewrite IH]. Qed.

Lemma no_space_snoc (s : string) (c : ascii) :
  no_space (s ++ String c "") = no_space s && negb (is_space c).
Proof.
  induction s as [|a s IH]; simpl.
  - now rewrite andb_true_r.
  - rewrite IH. now rewrite andb_assoc.
Qed.

(** The words [split] yields hold no white space. *)
Lemma split_from_no_space (s cur : string) :
  no_space cur = true ->
  Forall (fun w => no_space w = true) (split_from cur s).
Proof.
  revert cur. induction s as [|c r IH]; intros cur Hcur; simpl.
  - destruct (str_is_empty cur); repeat constructor. assumption.
  - destruct (is_space c) eqn:Hc.
    + destruct (str_is_empty cur); [now apply IH|].
      constructor; [assumption | now apply IH].
    + apply IH. now rewrite no_space_snoc, Hcur, Hc.
Qed.

(** A string without white space is its own single word. *)
Lemma split_from_word (w cur : string) :
  no_space w = true -> (cur ++ w)%string <> "" ->
  split_from cur w = [(cur ++ w)%string].
Proof.
  revert cur. induction w as [|c r IH]; intros cur Hw Hne; simpl in *.
  - rewrite str_append_nil_r in *.
    apply str_is_empty_false in Hne. now rewrite Hne.
  - apply andb_true_iff in Hw as [Hc Hr].
    apply negb_true_iff in Hc. rewrite Hc.
    rewrite IH; rewrite ?str_append_snoc; auto.
Qed.

Lemma str_split_word (w : string) :
  no_space w = true -> w <> "" -> str_split w = [w].
Proof. intros Hw Hne. now apply (split_from_word w ""). Qed.

Lemma str_split_tokens (s w : string) :
  In w (str_split s) -> str_split w = [w].
Proof.
  intro Hw. apply str_split_word.
  - pose proof (split_from_no_space s "" eq_refl) as H.
    rewrite Forall_forall in H. now apply H.
  - pose proof (str_split_nonempty s) as H.
    rewrite Forall_forall in H. now apply H.
Qed.

(** ** [split_title] and [split_tags] applied again *)

(** X1.  [split_title] works once: on a video whose title it has split,
    a second call raises [AttributeError], whatever the flags of the two
    calls, since the title is then a list. *)
Theorem split_title_twice
        (list_set : list string -> list string)
        (v v' : Video) (combine combine' : bool) :
  split_title list_set combine v = Ok v' ->
  split_title list_set combine' v' = Err AttributeError.
Proof.
  unfold split_title. destruct (v_title v) as [s|l]; [|discriminate].
  destruct (strip_words (str_split s)); [|discriminate].
  cbn [bind]. intros [= <-]. reflexivity.
Qed.

Lemma split_title_twice_witness :
  split_title first_seen_set true
              (video_with (TitleList ["Top"; "10"]) None)
  = Err AttributeError.
Proof.
  apply (split_title_twice first_seen_set
           (video_with (TitleStr "Top 10") None) _ false true).
  reflexivity.
Defined.

(** X2.  [split_tags] without [combine], applied to its own result: when
    the first call left no token (every tag was blank) the second call
    raises [TypeError]; otherwise it succeeds and stores the same tokens
    again, each once, so nothing is split further. *)
Theorem split_tags_twice
        (list_set : list string -> list string)
        (v v1 : Video) (combine : bool) :
  set_order_ok list_set ->
  split_tags list_set false v = Ok v1 ->
  exists l1,
    v_tags v1 = Some l1
    /\ ((l1 = [] /\ split_tags list_set combine v1 = Err TypeError)
        \/ (l1 <> []
            /\ exists l2,
                split_tags list_set false v1 = Ok (set_tags v1 (Some l2))
                /\ NoDup l2 /\ same_elements l2 l1)).
Proof.
  intros [Hnd Hin]. unfold split_tags at 1.
  destruct (v_tags v) as [[|tag tags]|]; try discriminate.
  remember (list_set (flat_map str_split (tag :: tags))) as l1 eqn:Hl1.
  intros [= <-].
  assert (Htok : forall x, In x l1 -> str_split x = [x]).
  { intros x Hx. rewrite Hl1 in Hx.
    apply Hin, in_flat_map in Hx as (t0 & _ & Hx).
    now apply (str_split_tokens t0). }
  clear Hl1. exists l1. unfold split_tags. cbn [set_tags v_tags].
  split; [reflexivity|].
  destruct l1 as [|x l]; [left; now split | right].
  split; [discriminate|]. eexists. split; [reflexivity|].
  split; [apply Hnd|]. intro y. rewrite Hin, in_flat_map. split.
  - intros (z & Hz & Hy). rewrite (Htok z Hz) in Hy.
    destruct Hy as [<-|[]]. exact Hz.
  - intro Hy. exists y. split; [exact Hy|]. rewrite (Htok y Hy). now left.
Qed.

Lemma split_tags_twice_witness :
  exists l1,
    v_tags (video_with (TitleStr "") (Some ["cats"; "dogs"])) = Some l1
    /\ ((l1 = []
         /\ split_tags first_seen_set false
                       (video_with (TitleStr "") (Some ["cats"; "dogs"]))
            = Err TypeError)
        \/ (l1 <> []
            /\ exists l2,
                split_tags first_seen_set false
                           (video_with (TitleStr "") (Some ["cats"; "dogs"]))
                = Ok (set_tags
                        (video_with (TitleStr "") (Some ["cats"; "dogs"]))
                        (Some l2))
                /\ NoDup l2 /\ same_elements l2 l1)).
Proof.
  apply (split_tags_twice first_seen_set
           (video_with (TitleStr "") (Some ["cats dogs"])) _ false
           first_seen_set_ok).
  reflexivity.
Defined.

(** ** Stop words *)

Lemma in_ignore_list
      (list_set : list string -> list string) (stopwords_english : list string)
      (x : string) :
  set_order_ok list_set ->
  (In x (ignore_list list_set stopwords_english)
   <-> In x (stopwords_english ++ custom_ignore)).
Proof.
  intros [_ Hin]. unfold ignore_list, custom_ignore.
  rewrite !in_app_iff, Hin. tauto.
Qed.

Lemma kept_word
      (list_set : list string -> list string) (stopwords_english : list string)
      (w : string) :
  set_order_ok list_set ->
  (negb (existsb (String.eqb (str_lower w))
                 (ignore_list list_set stopwords_english)) = true
   <-> ~ In (str_lower w) (stopwords_english ++ custom_ignore)).
Proof.
  intro Hok. rewrite negb_true_iff, <- not_true_iff_false, existsb_exists.
  rewrite <- (in_ignore_list list_set stopwords_english _ Hok). split.
  - intros H Hw. apply H. exists (str_lower w). split; [exact Hw|].
    apply String.eqb_refl.
  - intros H (y & Hy & Heq). apply String.eqb_eq in Heq. subst y. auto.
Qed.

Lemma filter_twice {A : Type} (f : A -> bool) (l : list A) :
  filter f (filter f l) = filter f l.
Proof.
  induction l as [|a l IH]; simpl; [reflexivity|].
  destruct (f a) eqn:Ha; simpl; rewrite ?Ha, IH; reflexivity.
Qed.

Lemma remove_stopwords_in
      (list_set : list string -> list string)
      (stopwords_english words : list string) (w : string) :
  set_order_ok list_set ->
  (In w (remove_stopwords list_set stopwords_english words)
   <-> In w words
       /\ ~ In (str_lower w) (stopwords_english ++ custom_ignore)).
Proof.
  intro Hok. unfold remove_stopwords.
  rewrite filter_In, (kept_word _ _ _ Hok). reflexivity.
Qed.

(** X3.  [__remove_stopwords] keeps exactly the words whose lower-case
    form is neither an English stop word nor one of the custom entries
    (a digit, a punctuation character, video, youtube, new, get, ft), so
    the test ignores case; applying it again changes nothing; and the
    result does not depend on the order in which the set of stop words is
    iterated. *)
Theorem remove_stopwords_kept
        (list_set list_set' : list string -> list string)
        (stopwords_english words : list string) :
  set_order_ok list_set ->
  set_order_ok list_set' ->
  (forall w,
      In w (remove_stopwords list_set stopwords_english words)
      <-> In w words
          /\ ~ In (str_lower w) (stopwords_english ++ custom_ignore))
  /\ remove_stopwords list_set stopwords_english
                      (remove_stopwords list_set stopwords_english words)
     = remove_stopwords list_set stopwords_english words
  /\ remove_stopwords list_set' stopwords_english words
     = remove_stopwords list_set stopwords_english words.
Proof.
  intros Hok Hok'. unfold remove_stopwords. split; [|split].
  - intro w. fold (remove_stopwords list_set stopwords_english words).
    now apply remove_stopwords_in.
  - apply filter_twice.
  - apply filter_ext. intro w.
    apply eq_true_iff_eq. rewrite (kept_word _ _ _ Hok), (kept_word _ _ _ Hok').
    reflexivity.
Qed.

Lemma remove_stopwords_kept_witness :
  remove_stopwords first_seen_set ["the"; "a"]
                   (remove_stopwords first_seen_set ["the"; "a"]
                                     ["The"; "NEW"; "cat"; "7"; "video"])
  = remove_stopwords first_seen_set ["the"; "a"]
                     ["The"; "NEW"; "cat"; "7"; "video"]
  /\ remove_stopwords (fun l => rev (first_seen_set l)) ["the"; "a"]
                      ["The"; "NEW"; "cat"; "7"; "video"]
     = remove_stopwords first_seen_set ["the"; "a"]
                        ["The"; "NEW"; "cat"; "7"; "video"].
Proof.
  assert (Hrev : set_order_ok (fun l => rev (first_seen_set l))).
  { destruct first_seen_set_ok as [Hnd Hin]. split; intro l.
    - apply NoDup_rev, Hnd.
    - intro x. rewrite <- in_rev. apply Hin. }
  exact (proj2 (remove_stopwords_kept
                  first_seen_set (fun l => rev (first_seen_set l))
                  ["the"; "a"] ["The"; "NEW"; "cat"; "7"; "video"]
                  first_seen_set_ok Hrev)).
Defined.

(** ** The videos [get_videos] builds *)

Lemma char_lower_twice (c : ascii) : char_lower (char_lower c) = char_lower c.
Proof. destruct c as [[] [] [] [] [] [] [] []]; reflexivity. Qed.

Lemma str_lower_twice (s : string) : str_lower (str_lower s) = str_lower s.
Proof.
  induction s as [|c s IH]; simpl; [reflexivity|].
  now rewrite char_lower_twice, IH.
Qed.

(** X4.  The video built from a record of the service always has a tag
    list: the empty one when the record has no tags, and otherwise the
    lower-case forms of the record's tags, each once (tags that differ
    only in case are merged), every one of them already in lower case.
    A missing comment count is stored as 0. *)
Theorem video_of_item_tags
        (list_set : list string -> list string) (video : ApiItem) :
  set_order_ok list_set ->
  (exists l,
      v_tags (video_of_item list_set video) = Some l
      /\ NoDup l
      /\ (forall x, In x l <->
                    exists tag, In tag (tag_list_of video) /\ x = str_lower tag)
      /\ Forall (fun x => str_lower x = x) l)
  /\ (stat_comment_count video = None ->
      v_comment_count (video_of_item list_set video) = 0%Z).
Proof.
  intros [Hnd Hin]. split.
  - unfold video_of_item, tag_list_of. cbn [v_tags].
    destruct (snippet_tags video) as [tags|].
    + eexists. split; [reflexivity|]. split; [apply Hnd|]. split.
      * intro x. rewrite Hin, in_map_iff. split.
        -- intros (tag & <- & Ht). now exists tag.
        -- intros (tag & Ht & ->). now exists tag.
      * apply Forall_forall. intros x Hx.
        apply Hin, in_map_iff in Hx as (tag & <- & _).
        apply str_lower_twice.
    + exists []. split; [reflexivity|]. split; [constructor|]. split.
      * intro x. simpl. split; [tauto | intros (? & [] & _)].
      * constructor.
  - intro Hc. unfold video_of_item. cbn [v_comment_count]. now rewrite Hc.
Qed.

Lemma video_of_item_tags_witness :
  exists l,
    v_tags (video_of_item first_seen_set
                          (mkApiItem "id" "" (Some ["Cats"; "cats"; "DOGS"])
                                     "" false 0 0 0 None))
    = Some l
    /\ NoDup l
    /\ (forall x, In x l <->
                  exists tag, In tag ["Cats"; "cats"; "DOGS"]
                              /\ x = str_lower tag)
    /\ Forall (fun x => str_lower x = x) l.
Proof.
  exact (proj1 (video_of_item_tags
                  first_seen_set
                  (mkApiItem "id" "" (Some ["Cats"; "cats"; "DOGS"])
                             "" false 0 0 0 None)
                  first_seen_set_ok)).
Defined.

(** ** Discovery of the identifiers *)

Lemma str_index_link (prefix i : string) :
  str_lacks "="%char prefix = true ->
  str_index "="%char (prefix ++ String "="%char i)
  = Ok (String.length prefix).
Proof.
  induction prefix as [|c p IH]; simpl; intro H; [reflexivity|].
  apply andb_true_iff in H as [Hc Hp]. apply negb_true_iff in Hc.
  rewrite Hc, (IH Hp). reflexivity.
Qed.

Lemma str_from_link (prefix i : string) :
  str_from (String.length prefix + 1) (prefix ++ String "="%char i) = i.
Proof. induction prefix as [|c p IH]; simpl; [reflexivity | exact IH]. Qed.

Lemma str_index_lacks (c : ascii) (s : string) :
  str_lacks c s = true -> str_index c s = Err ValueError.
Proof.
  induction s as [|c' r IH]; simpl; intro H; [reflexivity|].
  apply andb_true_iff in H as [Hc Hr]. apply negb_true_iff in Hc.
  now rewrite Hc, (IH Hr).
Qed.

(** An element the loop of [get_videos] passes over: no [href], or an
    empty one. *)
Lemma thumbnail_ids_skip (hrefs : list (option string)) :
  thumbnail_ids (filter is_link hrefs) = thumbnail_ids hrefs.
Proof.
  induction hrefs as [|[url|] r IH]; simpl; [reflexivity| |exact IH].
  destruct (str_is_empty url) eqn:He; simpl; rewrite ?He, IH; reflexivity.
Qed.

(** X5.  Discovery reads each identifier back from its link: for links
    made of a prefix without an equals sign, an equals sign and an
    identifier, the loop yields exactly the identifiers, in the order of
    the page (an identifier may itself hold an equals sign); elements
    with no [href] or an empty one, wherever they stand, are passed
    over. *)
Theorem thumbnail_ids_of_links
        (prefix : string) (ids : list string) (hrefs : list (option string)) :
  str_lacks "="%char prefix = true ->
  filter is_link hrefs = map (link_to prefix) ids ->
  thumbnail_ids hrefs = Ok ids.
Proof.
  intros Hp Hlinks. rewrite <- thumbnail_ids_skip, Hlinks. clear Hlinks.
  induction ids as [|i ids IH]; [reflexivity|].
  assert (He : str_is_empty (prefix ++ String "="%char i) = false)
    by (destruct prefix; reflexivity).
  cbn [map thumbnail_ids link_to].
  rewrite He, (str_index_link _ _ Hp), IH. cbn [bind].
  now rewrite str_from_link.
Qed.

Lemma thumbnail_ids_of_links_witness :
  thumbnail_ids [None; Some "/watch?v=abc"; Some ""; Some "/watch?v=d=e"]
  = Ok ["abc"; "d=e"].
Proof.
  apply (thumbnail_ids_of_links "/watch?v"); reflexivity.
Defined.

Lemma thumbnail_ids_error (hrefs : list (option string)) (e : PyError) :
  thumbnail_ids hrefs = Err e -> e = ValueError.
Proof.
  induction hrefs as [|[url|] r IH]; simpl; [discriminate| |exact IH].
  destruct (str_is_empty url); [exact IH|].
  assert (Hi : forall c s e', str_index c s = Err e' -> e' = ValueError).
  { intros c s. induction s as [|c' s IHs]; simpl; intros e' H.
    - now inversion H.
    - destruct (Ascii.eqb c' c); [discriminate|].
      destruct (str_index c s); [discriminate|]. apply IHs. exact H. }
  destruct (str_index "="%char url) as [i|e'] eqn:Ei; cbn [bind].
  - destruct (thumbnail_ids r); [discriminate|]. cbn [bind]. exact IH.
  - intros [= <-]. now apply (Hi _ _ _ Ei).
Qed.

(** X6.  A link that is not empty and holds no equals sign stops
    discovery with [ValueError], wherever it stands on the page, and
    [get_videos] then raises it: no video is fetched, not even those whose
    links are well formed. *)
Theorem thumbnail_ids_bad_link
        (list_set : list string -> list string)
        (youtube_list : list string -> list ApiItem)
        (hrefs : list (option string)) (url : string) (now : Z)
        (t : Trending) :
  In (Some url) hrefs ->
  url <> "" ->
  str_lacks "="%char url = true ->
  thumbnail_ids hrefs = Err ValueError
  /\ get_videos list_set youtube_list hrefs now t = Err ValueError.
Proof.
  intros Hin Hne Hl. apply str_is_empty_false in Hne.
  assert (Herr : exists e, thumbnail_ids hrefs = Err e).
  { induction hrefs as [|[u|] r IH]; simpl in *; [tauto| |].
    - destruct Hin as [[= ->]|H].
      + rewrite Hne, (str_index_lacks _ _ Hl). now exists ValueError.
      + destruct (IH H) as [e He]. rewrite He.
        destruct (str_is_empty u); [now exists e|].
        destruct (str_index "="%char u) as [i|e0]; cbn [bind];
          [now exists e | now exists e0].
    - destruct Hin as [[=]|H]. now apply IH. }
  destruct Herr as [e He].
  rewrite (thumbnail_ids_error _ _ He) in He.
  split; [exact He|]. unfold get_videos. now rewrite He.
Qed.

Lemma thumbnail_ids_bad_link_witness :
  thumbnail_ids [Some "/watch?v=abc"; Some "/feed/trending"]
  = Err ValueError
  /\ get_videos first_seen_set bare_service
                [Some "/watch?v=abc"; Some "/feed/trending"] 0 new_trending
     = Err ValueError.
Proof.
  apply (thumbnail_ids_bad_link
           first_seen_set bare_service
           [Some "/watch?v=abc"; Some "/feed/trending"] "/feed/trending").
  - right. left. reflexivity.
  - discriminate.
  - reflexivity.
Defined.

(** ** The calls of [get_videos] *)

Lemma length_concat_batches (front : list (list string)) :
  Forall (fun c => List.length c = num) front ->
  List.length (List.concat front) = num * List.length front.
Proof.
  unfold num. induction 1 as [|c front Hc _ IH];
    cbn [List.concat List.length]; [lia|].
  rewrite length_app, Hc, IH. lia.
Qed.

(** X7.  [get_videos] calls the service once for every 50 identifiers or
    part thereof, and once, with an empty list of identifiers, when the
    page shows no video; apart from that one case no call is made with an
    empty list.  A page of exactly 50 or 100 videos costs one or two
    calls, not one more. *)
Theorem get_videos_call_count
        (list_set : list string -> list string)
        (youtube_list : list string -> list ApiItem)
        (hrefs : list (option string)) (now : Z) (t : Trending)
        (ids : list string) :
  thumbnail_ids hrefs = Ok ids ->
  exists t' calls,
    get_videos list_set youtube_list hrefs now t = Ok (t', calls)
    /\ List.length calls = S ((List.length ids - 1) / 50)
    /\ (ids = [] -> calls = [[]])
    /\ (ids <> [] -> Forall (fun c => c <> []) calls).
Proof.
  intro Hids.
  destruct (get_videos_run list_set youtube_list hrefs now t ids Hids)
    as (front & final & Hrun & Hc & Hf & Hl & Hne).
  eexists. exists (front ++ [final]). split; [exact Hrun|].
  assert (Hlen : List.length ids = num * List.length front + List.length final).
  { rewrite <- Hc, concat_app, length_app, (length_concat_batches _ Hf).
    simpl. rewrite app_nil_r. reflexivity. }
  unfold num in *. split; [|split].
  - rewrite length_app. cbn [List.length].
    destruct ids as [|i ids'].
    + simpl in Hlen. assert (List.length front = 0) by lia.
      rewrite H. reflexivity.
    + assert (Hpos : 0 < List.length final).
      { assert (final <> []) by (apply Hne; discriminate).
        destruct final; [congruence | simpl; lia]. }
      rewrite Nat.add_1_r. f_equal.
      apply (Nat.div_unique _ 50 _ (List.length final - 1)); lia.
  - intros ->. simpl in Hlen.
    assert (Hfr : List.length front = 0) by lia.
    assert (Hfi : List.length final = 0) by lia.
    apply length_zero_iff_nil in Hfr, Hfi. now subst.
  - intro Hids'. apply Forall_app. split.
    + apply Forall_forall. intros c Hin ->.
      rewrite Forall_forall in Hf. specialize (Hf _ Hin). discriminate.
    + constructor; [now apply Hne | constructor].
Qed.

Lemma get_videos_call_count_witness :
  exists t' calls,
    get_videos first_seen_set bare_service (page_of 100) 0 new_trending
    = Ok (t', calls)
    /\ List.length calls = 2
    /\ (ids_of 100 = [] -> calls = [[]])
    /\ (ids_of 100 <> [] -> Forall (fun c => c <> []) calls).
Proof.
  exact (get_videos_call_count
           first_seen_set bare_service (page_of 100) 0 new_trending
           (ids_of 100) eq_refl).
Defined.

(** The loop does not look at what the collection and the log already
    hold. *)
Lemma fetch_loop_appends
      (list_set : list string -> list string)
      (youtube_list : list string -> list ApiItem)
      (ids : list string) (n : nat) :
  forall start videos calls,
    List.length ids - start = n ->
    fetch_loop list_set youtube_list ids start videos calls
    = (videos ++ fst (fetch_loop list_set youtube_list ids start [] []),
       calls ++ snd (fetch_loop list_set youtube_list ids start [] [])).
Proof.
  induction n as [n IH] using lt_wf_ind. intros start videos calls Hn.
  rewrite (fetch_loop_equation_1 list_set youtube_list ids start videos calls).
  rewrite (fetch_loop_equation_1 list_set youtube_list ids start [] []).
  destruct (lt_dec (start + num) (List.length ids)) as [Hlt|Hge];
    cbn [fetch_loop_unfold_clause_1 fst snd app].
  - assert (Hm : List.length ids - (start + num) < n)
      by (unfold num in *; lia).
    rewrite (IH _ Hm (start + num) (videos ++ _) (calls ++ _) eq_refl).
    rewrite (IH _ Hm (start + num) (map _ _) [_] eq_refl).
    cbn [fst snd]. now rewrite <- !app_assoc.
  - reflexivity.
Qed.

(** X8.  [get_videos] never empties the collection: the videos a
    [Trending] object already holds stay in front of the fetched ones, and
    the flat sequences and the frequency tables are left as they were.
    Run again on the same page, with the service answering as before, it
    makes the same calls and the collection then holds every fetched video
    twice. *)
Theorem get_videos_accumulates
        (list_set : list string -> list string)
        (youtube_list : list string -> list ApiItem)
        (hrefs : list (option string)) (now now' : Z) (t t1 : Trending)
        (calls : list (list string)) :
  get_videos list_set youtube_list hrefs now t = Ok (t1, calls) ->
  exists fetched t2,
    t_videos t1 = t_videos t ++ fetched
    /\ get_videos list_set youtube_list hrefs now' t1 = Ok (t2, calls)
    /\ t_videos t2 = t_videos t ++ fetched ++ fetched
    /\ (t_titles t2, t_tags t2, t_title_frequencies t2, t_tag_frequencies t2)
       = (t_titles t, t_tags t, t_title_frequencies t, t_tag_frequencies t).
Proof.
  unfold get_videos.
  destruct (thumbnail_ids hrefs) as [ids|e]; [|discriminate]. cbn [bind].
  rewrite (fetch_loop_appends list_set youtube_list ids _ 0 (t_videos t) []
                              eq_refl).
  intros [= <- <-]. cbn [t_videos t_titles t_tags t_title_frequencies
                         t_tag_frequencies app].
  rewrite (fetch_loop_appends list_set youtube_list ids _ 0 (_ ++ _) []
                              eq_refl).
  do 2 eexists. split; [reflexivity|]. split; [reflexivity|].
  cbn [t_videos t_titles t_tags t_title_frequencies t_tag_frequencies].
  split; [now rewrite <- app_assoc | reflexivity].
Qed.

Lemma get_videos_accumulates_witness :
  exists fetched t2,
    get_videos first_seen_set bare_service (page_of 2) 1
               (trending_with
                  (map (video_of_item first_seen_set)
                       (bare_service (ids_of 2))))
    = Ok (t2, [ids_of 2])
    /\ t_videos t2 = fetched ++ fetched
    /\ List.length fetched = 2.
Proof.
  destruct (get_videos_accumulates
              first_seen_set bare_service (page_of 2) 0 1 new_trending
              _ _ eq_refl)
    as (fetched & t2 & H1 & H2 & H3 & _).
  exists fetched, t2. split; [exact H2|]. split; [exact H3|].
  cbn in H1. now rewrite <- H1.
Defined.

(** ** [count]: the numbers it returns *)

Lemma list_count_bounds (l : list string) (x : string) :
  (0 <= list_count l x <= Z.of_nat (List.length l))%Z.
Proof.
  induction l as [|y l IH]; [simpl; lia|].
  cbn [list_count List.length]. destruct (String.eqb y x); lia.
Qed.

Lemma list_count_zero (l : list string) (x : string) :
  list_count l x = 0%Z <-> ~ In x l.
Proof.
  induction l as [|y l IH]; simpl; [tauto|].
  pose proof (list_count_bounds l x) as Hb.
  destruct (String.eqb_spec y x) as [->|Hne]; split.
  - lia.
  - tauto.
  - intros H [Hy|Hx]; [congruence|]. apply IH; [lia | assumption].
  - intro H. assert (~ In x l) by tauto. apply IH in H0. lia.
Qed.

(** ** [combine_titles] *)

Lemma str_chars_length (s : string) :
  Forall (fun x => String.length x = 1) (str_chars s).
Proof. induction s; simpl; constructor; auto. Qed.

Lemma combine_titles_loop_plain
      (list_set : list string -> list string) (stopwords_english : list string)
      (combine : bool) (vs : list Video) (flat : list string) :
  combine_titles_loop list_set stopwords_english false combine false vs flat
  = Ok (vs, flat ++ flat_map (fun v => title_items (v_title v)) vs).
Proof.
  revert flat. induction vs as [|v vs IH]; intro flat; simpl.
  - now rewrite app_nil_r.
  - rewrite IH. cbn [bind fst snd]. now rewrite <- app_assoc.
Qed.

(** X9.  [combine_titles] with its default flags never raises and leaves
    the videos as they are, but what it appends for a title that is
    still a string is the characters of the title, one element each, and
    not the title.  On a collection of unsplit titles, as [get_videos]
    leaves it, and an empty flat title sequence, every element of the
    flat sequence is then one character long, so [count] finds no
    occurrence of any longer name. *)
Theorem combine_titles_unsplit
        (list_set : list string -> list string)
        (stopwords_english : list string)
        (combine : bool) (t : Trending) (name : string) (index : option Z) :
  Forall (fun v => exists s, v_title v = TitleStr s) (t_videos t) ->
  t_titles t = [] ->
  (1 < String.length name)%nat ->
  exists t',
    combine_titles list_set stopwords_english false combine false t = Ok t'
    /\ t_videos t' = t_videos t
    /\ t_titles t' = flat_map (fun v => title_items (v_title v)) (t_videos t)
    /\ Forall (fun x => String.length x = 1) (t_titles t')
    /\ count true false (Some name) index t' = Ok (Some 0%Z).
Proof.
  intros Hstr Hempty Hname. unfold combine_titles.
  rewrite combine_titles_loop_plain, Hempty. cbn [bind fst snd app].
  eexists. split; [reflexivity|].
  cbn [t_videos t_titles]. split; [reflexivity|]. split; [reflexivity|].
  assert (Hone : Forall (fun x => String.length x = 1)
                        (flat_map (fun v => title_items (v_title v))
                                  (t_videos t))).
  { apply Forall_flat_map. revert Hstr. apply Forall_impl.
    intros v [s ->]. apply str_chars_length. }
  split; [exact Hone|]. unfold count. cbn [t_titles].
  rewrite count_in_name by (intros ->; simpl in Hname; lia).
  do 2 f_equal. apply list_count_zero. intro Hin.
  rewrite Forall_forall in Hone. specialize (Hone _ Hin). lia.
Qed.

Lemma combine_titles_unsplit_witness :
  exists t',
    combine_titles first_seen_set [] false false false
                   (trending_with [video_with (TitleStr "Top 10") None])
    = Ok t'
    /\ t_videos t' = [video_with (TitleStr "Top 10") None]
    /\ t_titles t' = ["T"; "o"; "p"; " "; "1"; "0"]
    /\ Forall (fun x => String.length x = 1) (t_titles t')
    /\ count true false (Some "Top 10") None t' = Ok (Some 0%Z).
Proof.
  apply (combine_titles_unsplit
           first_seen_set [] false
           (trending_with [video_with (TitleStr "Top 10") None])
           "Top 10" None).
  - repeat constructor. now exists "Top 10".
  - reflexivity.
  - simpl. lia.
Defined.

Lemma combine_titles_body_split
      (list_set : list string -> list string) (stopwords_english : list string)
      (combine stop_words : bool) (v v' : Video) :
  combine_titles_body list_set stopwords_english true combine stop_words v
  = Ok v' ->
  exists l, v_title v' = TitleList l.
Proof.
  unfold combine_titles_body, split_title.
  destruct (v_title v) as [s|l]; [|discriminate].
  destruct (strip_words (str_split s)); [|discriminate]. cbn [bind].
  destruct stop_words; intros [= <-]; unfold stop_title;
    cbn [set_title v_title]; eauto.
Qed.

(** X10.  [combine_titles] with [split] works once: after a call that
    succeeded on a collection that is not empty, a second call with
    [split] raises [AttributeError], whatever its other flags. *)
Theorem combine_titles_split_twice
        (list_set : list string -> list string)
        (stopwords_english : list string)
        (combine stop_words combine' stop_words' : bool) (t t' : Trending) :
  combine_titles list_set stopwords_english true combine stop_words t
  = Ok t' ->
  t_videos t <> [] ->
  combine_titles list_set stopwords_english true combine' stop_words' t'
  = Err AttributeError.
Proof.
  unfold combine_titles. intros Hrun Hne.
  destruct (t_videos t) as [|v vs]; [congruence|]. clear Hne.
  cbn [combine_titles_loop] in Hrun.
  destruct (combine_titles_body list_set stopwords_english
                                true combine stop_words v)
    as [v1|e] eqn:Hb; [|discriminate].
  cbn [bind] in Hrun.
  destruct (combine_titles_loop list_set stopwords_english true combine
                                stop_words vs _) as [p|e]; [|discriminate].
  cbn [bind] in Hrun. injection Hrun as <-. cbn [t_videos t_titles fst].
  destruct (combine_titles_body_split _ _ _ _ _ _ Hb) as [l Hl].
  cbn [combine_titles_loop]. unfold combine_titles_body at 1, split_title.
  rewrite Hl. reflexivity.
Qed.

Lemma combine_titles_split_twice_witness :
  combine_titles first_seen_set [] true true false
                 (mkTrending [video_with (TitleList ["Top"; "10"]) None]
                             ["Top"; "10"] [] [] [] None)
  = Err AttributeError.
Proof.
  apply (combine_titles_split_twice
           first_seen_set [] false false true false
           (trending_with [video_with (TitleStr "Top 10") None])).
  - reflexivity.
  - discriminate.
Defined.

(** ** [combine] *)

Lemma split_title_keeps_tags
      (list_set : list string -> list string)
      (combine : bool) (v v' : Video) :
  split_title list_set combine v = Ok v' -> v_tags v' = v_tags v.
Proof.
  unfold split_title. destruct (v_title v) as [s|l]; [|discriminate].
  destruct (strip_words (str_split s)); [|discriminate].
  cbn [bind]. now intros [= <-].
Qed.

(** On a video whose tags are null the loop body of [combine] raises, or
    else the [extend] that follows it does. *)
Lemma combine_body_null_tags
      (list_set : list string -> list string) (stopwords_english : list string)
      (split combine stop_words : bool) (v : Video) (tags : list string) :
  v_tags v = None \/ (split = true /\ v_tags v = Some []) ->
  exists e,
    (v' <- combine_body list_set stopwords_english split combine stop_words v ;;
     extend_tags tags v') = Err e.
Proof.
  intro Hv. unfold combine_body. destruct split.
  - destruct (split_title list_set combine v) as [v0|e] eqn:H0;
      cbn [bind]; [|eauto].
    apply split_title_keeps_tags in H0. unfold split_tags. rewrite H0.
    destruct Hv as [->|[_ ->]]; cbn [bind]; eauto.
  - destruct Hv as [Hv|[[=] _]]. cbn [bind].
    destruct stop_words; unfold stop_tags, stop_title, extend_tags.
    + destruct (v_title v); cbn [set_title v_tags]; rewrite Hv;
        cbn [bind]; eauto.
    + cbn [bind]. rewrite Hv. eauto.
Qed.

(** X11.  [combine] does not skip a video without tags as [combine_tags]
    does: whatever the flags, it raises as soon as the collection holds a
    video whose tags are null, and with [split] it also raises when a
    video holds an empty tag list, which is what [get_videos] stores for a
    video that came without tags. *)
Theorem combine_needs_tags
        (list_set : list string -> list string)
        (stopwords_english : list string)
        (split combine_flag stop_words : bool) (t : Trending) (v : Video) :
  In v (t_videos t) ->
  v_tags v = None \/ (split = true /\ v_tags v = Some []) ->
  exists e,
    combine list_set stopwords_english split combine_flag stop_words t
    = Err e.
Proof.
  intros Hin Hv. unfold combine.
  assert (Hloop : forall titles tags,
             exists e,
               combine_loop list_set stopwords_english split combine_flag
                            stop_words (t_videos t) titles tags = Err e).
  { induction (t_videos t) as [|a vs IH]; [destruct Hin|].
    intros titles tags. cbn [combine_loop].
    destruct Hin as [->|Hin].
    - destruct (combine_body_null_tags list_set stopwords_english
                  split combine_flag stop_words v tags Hv) as [e He].
      destruct (combine_body list_set stopwords_english split combine_flag
                             stop_words v) as [v'|e']; cbn [bind] in *;
        [|eauto].
      rewrite He. cbn [bind]. eauto.
    - destruct (combine_body list_set stopwords_english split combine_flag
                             stop_words a) as [a'|e']; cbn [bind]; [|eauto].
      destruct (extend_tags tags a') as [tags'|e']; cbn [bind]; [|eauto].
      destruct (IH Hin (titles ++ title_items (v_title a')) tags')
        as [e He].
      rewrite He. cbn [bind]. eauto. }
  destruct (Hloop (t_titles t) (t_tags t)) as [e He].
  rewrite He. cbn [bind]. eauto.
Qed.

Lemma combine_needs_tags_witness :
  exists e,
    combine first_seen_set [] true false false
            (trending_with
               [video_with (TitleStr "Top 10") (Some ["cats"]);
                video_of_item first_seen_set (bare_item "id")])
    = Err e.
Proof.
  apply (combine_needs_tags
           first_seen_set [] true false false
           (trending_with
              [video_with (TitleStr "Top 10") (Some ["cats"]);
               video_of_item first_seen_set (bare_item "id")])
           (video_of_item first_seen_set (bare_item "id"))).
  - right. left. reflexivity.
  - right. split; reflexivity.
Defined.

(** The loop body of [combine] does on one video what the loop bodies of
    [combine_titles] and of [combine_tags] do one after the other. *)
Lemma combine_body_in_two_steps
      (list_set : list string -> list string) (stopwords_english : list string)
      (split combine_flag stop_words : bool) (v v' : Video)
      (tags tags' : list string) :
  combine_body list_set stopwords_english split combine_flag stop_words v
  = Ok v' ->
  extend_tags tags v' = Ok tags' ->
  exists v1,
    combine_titles_body list_set stopwords_english
                        split combine_flag stop_words v = Ok v1
    /\ v_title v1 = v_title v'
    /\ ((has_tags v1 = true
         /\ combine_tags_body list_set stopwords_english
                              split combine_flag stop_words v1 = Ok v'
         /\ extend_tags tags v' = Ok tags')
        \/ (has_tags v1 = false /\ v1 = v' /\ tags' = tags)).
Proof.
  destruct v as [i title tgs d vc lk dl cc mk].
  unfold combine_body, combine_titles_body, combine_tags_body, extend_tags,
    split_title, split_tags, stop_tags, stop_title, has_tags, set_title,
    set_tags.
  cbn [v_id v_title v_tags v_duration v_view_count v_likes v_dislikes
       v_comment_count v_made_for_kids].
  destruct split.
  - destruct title as [s|l]; [|discriminate].
    destruct (strip_words (str_split s)) as [ws|e]; [|discriminate].
    cbn [bind v_id v_title v_tags v_duration v_view_count v_likes v_dislikes
         v_comment_count v_made_for_kids].
    destruct tgs as [[|x l]|]; try discriminate.
    cbn [bind v_id v_title v_tags v_duration v_view_count v_likes v_dislikes
         v_comment_count v_made_for_kids].
    destruct stop_words;
      cbn [bind v_id v_title v_tags v_duration v_view_count v_likes
           v_dislikes v_comment_count v_made_for_kids];
      intros [= <-]; cbn [v_tags v_title]; intros [= <-];
      (eexists; split; [reflexivity|]; split; [reflexivity|]; left;
       cbn [v_tags]; split; [reflexivity | split; reflexivity]).
  - cbn [bind]. destruct stop_words.
    + destruct title as [s|l];
        cbn [bind v_id v_title v_tags v_duration v_view_count v_likes
             v_dislikes v_comment_count v_made_for_kids];
        (destruct tgs as [[|x l']|]; try discriminate;
         intros [= <-]; cbn [v_tags v_title]; intros [= <-];
         (eexists; split; [reflexivity|]; split; [reflexivity|];
          cbn [v_tags];
          first [ left; split; [reflexivity | split; reflexivity]
                | right; split;
                  [reflexivity
                  | split; [reflexivity | now rewrite app_nil_r] ] ])).
    + intros [= <-]. cbn [v_tags v_title].
      destruct tgs as [[|x l']|]; try discriminate; intros [= <-];
        (eexists; split; [reflexivity|]; split; [reflexivity|];
         cbn [v_tags];
         first [ left; split; [reflexivity | split; reflexivity]
               | right; split;
                 [reflexivity
                 | split; [reflexivity | now rewrite app_nil_r] ] ]).
Qed.

Lemma combine_loop_in_two_steps
      (list_set : list string -> list string) (stopwords_english : list string)
      (split combine_flag stop_words : bool) (vs : list Video) :
  forall titles tags vs' titles' tags',
    combine_loop list_set stopwords_english split combine_flag stop_words
                 vs titles tags
    = Ok (vs', (titles', tags')) ->
    exists vs1,
      combine_titles_loop list_set stopwords_english
                          split combine_flag stop_words vs titles
      = Ok (vs1, titles')
      /\ combine_tags_loop list_set stopwords_english
                           split combine_flag stop_words vs1 tags
         = Ok (vs', tags').
Proof.
  induction vs as [|v vs IH]; intros titles tags vs' titles' tags'.
  - cbn. intros [= <- <- <-]. exists []. split; reflexivity.
  - cbn [combine_loop combine_titles_loop].
    destruct (combine_body list_set stopwords_english split combine_flag
                           stop_words v) as [v'|e] eqn:Hb; [|discriminate].
    cbn [bind].
    destruct (extend_tags tags v') as [tags1|e] eqn:He; [|discriminate].
    cbn [bind].
    destruct (combine_loop list_set stopwords_english split combine_flag
                           stop_words vs _ tags1)
      as [[r [ti ta]]|e] eqn:Hl; [|discriminate].
    cbn [bind fst snd]. intros [= <- <- <-].
    destruct (combine_body_in_two_steps _ _ _ _ _ _ _ _ _ Hb He)
      as (v1 & Hb1 & Ht & Hcase).
    destruct (IH _ _ _ _ _ Hl) as (vs1 & Hl1 & Hl2).
    rewrite Hb1. cbn [bind]. rewrite Ht, Hl1. cbn [bind fst snd].
    exists (v1 :: vs1). split; [reflexivity|].
    cbn [combine_tags_loop].
    destruct Hcase as [(Hh & Hb2 & He2)|(Hh & -> & ->)]; rewrite Hh.
    + rewrite Hb2. cbn [bind]. rewrite He2. cbn [bind].
      rewrite Hl2. reflexivity.
    + rewrite Hl2. reflexivity.
Qed.

(** X12.  Whenever [combine] returns, it has done what [combine_titles]
    followed by [combine_tags], with the same flags, does: the same
    videos, the same flat title sequence and the same flat tag sequence.
    (The converse fails: the two calls skip a video without tags, on which
    [combine] raises.) *)
Theorem combine_in_two_steps
        (list_set : list string -> list string)
        (stopwords_english : list string)
        (split combine_flag stop_words : bool) (t t' : Trending) :
  combine list_set stopwords_english split combine_flag stop_words t = Ok t' ->
  (t1 <- combine_titles list_set stopwords_english
                        split combine_flag stop_words t ;;
   combine_tags list_set stopwords_english split combine_flag stop_words t1)
  = Ok t'.
Proof.
  unfold combine, combine_titles, combine_tags.
  destruct (combine_loop list_set stopwords_english split combine_flag
                         stop_words (t_videos t) (t_titles t) (t_tags t))
    as [[vs' [titles' tags']]|e] eqn:Hl; [|discriminate].
  cbn [bind fst snd]. intros [= <-].
  destruct (combine_loop_in_two_steps _ _ _ _ _ _ _ _ _ _ _ Hl)
    as (vs1 & H1 & H2).
  rewrite H1. cbn [bind fst snd t_videos t_tags]. rewrite H2. reflexivity.
Qed.

Lemma combine_in_two_steps_witness :
  (t1 <- combine_titles
           first_seen_set ["the"] true false true
           (trending_with
              [video_with (TitleStr "The (Top) 10!") (Some ["funny cats"]);
               video_with (TitleStr "new cats") (Some ["the cats"; "dogs"])]) ;;
   combine_tags first_seen_set ["the"] true false true t1)
  = Ok (mkTrending
          [video_with (TitleList ["Top"; "10"]) (Some ["funny"; "cats"]);
           video_with (TitleList ["cats"]) (Some ["cats"; "dogs"])]
          ["Top"; "10"; "cats"] ["funny"; "cats"; "cats"; "dogs"]
          [] [] None).
Proof.
  apply (combine_in_two_steps first_seen_set ["the"] true false true).
  reflexivity.
Defined.

(** ** [count]: names and bad indices *)

(** X13.  With a name that is not empty, [count] always returns a number,
    never [None] and never an error, whatever [index] is: it lies between
    zero and the length of the flat sequence the selectors pick (the
    titles when [title] is set, whether or not [tag] is set too), and it
    is zero exactly when the name does not occur there. *)
Theorem count_of_name
        (title tag : bool) (t : Trending) (name : string) (index : option Z) :
  let l := if title then t_titles t else t_tags t in
  title || tag = true ->
  name <> "" ->
  exists c,
    count title tag (Some name) index t = Ok (Some c)
    /\ (0 <= c <= Z.of_nat (List.length l))%Z
    /\ (c = 0%Z <-> ~ In name l).
Proof.
  intros l Hsel Hname. exists (list_count l name).
  split; [|split; [apply list_count_bounds | apply list_count_zero]].
  unfold count, l.
  destruct title; [|destruct tag; [|discriminate]];
    now apply count_in_name.
Qed.

Lemma count_of_name_witness :
  exists c,
    count true true (Some "dogs") (Some 7%Z) (trending_of ["cats"] ["dogs"])
    = Ok (Some c)
    /\ (0 <= c <= 1)%Z
    /\ (c = 0%Z <-> ~ In "dogs" ["cats"]).
Proof.
  apply (count_of_name true true (trending_of ["cats"] ["dogs"]) "dogs"
                       (Some 7%Z)).
  - reflexivity.
  - discriminate.
Defined.

Lemma list_getitem_out_of_range (l : list string) (i : Z) :
  (i < - Z.of_nat (List.length l) \/ Z.of_nat (List.length l) <= i)%Z ->
  list_getitem l i = Err IndexError.
Proof.
  intro Hi. unfold list_getitem.
  set (n := Z.of_nat (List.length l)) in *.
  assert (Hn : (0 <= n)%Z) by (unfold n; lia).
  destruct (Z.ltb_spec i 0).
  - destruct (Z.ltb_spec (i + n) 0); [reflexivity | lia].
  - destruct (Z.ltb_spec i 0); [lia|].
    destruct (Z.leb_spec n i); [reflexivity | lia].
Qed.

(** X14.  With no name, or with an empty one, and an index that is not
    zero and lies outside the flat sequence the selectors pick, [count]
    raises [IndexError]; on an empty flat sequence every index but zero
    does. *)
Theorem count_index_out_of_range
        (title tag : bool) (t : Trending) (name : option string) (i : Z) :
  let l := if title then t_titles t else t_tags t in
  title || tag = true ->
  name = None \/ name = Some "" ->
  (i <> 0)%Z ->
  (i < - Z.of_nat (List.length l) \/ Z.of_nat (List.length l) <= i)%Z ->
  count title tag name (Some i) t = Err IndexError.
Proof.
  intros l Hsel Hname Hz Hi.
  assert (Hin : count_in l name (Some i) = Err IndexError).
  { unfold count_in, index_given. apply Z.eqb_neq in Hz. rewrite Hz.
    rewrite (list_getitem_out_of_range _ _ Hi).
    destruct Hname as [->| ->]; reflexivity. }
  unfold count. unfold l in Hin.
  destruct title; [exact Hin|]. destruct tag; [exact Hin | discriminate].
Qed.

Lemma count_index_out_of_range_witness :
  count false true (Some "") (Some 1%Z) (trending_of ["cats"] [])
  = Err IndexError.
Proof.
  apply (count_index_out_of_range false true (trending_of ["cats"] [])
                                  (Some "") 1).
  - reflexivity.
  - right. reflexivity.
  - discriminate.
  - right. simpl. lia.
Defined.

(** ** The counts of a frequency table *)

Lemma sum_indicator (y : string) (keys : list string) :
  NoDup keys ->
  fold_right Z.add 0%Z
             (map (fun x => if String.eqb y x then 1%Z else 0%Z) keys)
  = if in_dec string_dec y keys then 1%Z else 0%Z.
Proof.
  induction 1 as [|x keys Hx Hnd IH]; [reflexivity|].
  cbn [map fold_right]. rewrite IH.
  destruct (String.eqb_spec y x) as [->|Hne].
  - destruct (in_dec string_dec x keys); [contradiction|].
    destruct (in_dec string_dec x (x :: keys)) as [_|Hn];
      [reflexivity | exfalso; apply Hn; now left].
  - destruct (in_dec string_dec y keys) as [Hy|Hy];
      destruct (in_dec string_dec y (x :: keys)) as [Hy'|Hy'];
      try reflexivity.
    + exfalso. apply Hy'. now right.
    + exfalso. destruct Hy' as [->|Hy']; [now apply Hne | now apply Hy].
Qed.

Lemma sum_split (f g : string -> Z) (keys : list string) :
  fold_right Z.add 0%Z (map (fun x => (f x + g x)%Z) keys)
  = (fold_right Z.add 0%Z (map f keys)
     + fold_right Z.add 0%Z (map g keys))%Z.
Proof. induction keys as [|x keys IH]; simpl; lia. Qed.

(** The counts of distinct keys add up to at most the length of the
    sequence, and to the length when no element is left out. *)
Lemma sum_of_counts (l keys : list string) :
  NoDup keys ->
  (fold_right Z.add 0%Z (map (list_count l) keys)
   <= Z.of_nat (List.length l))%Z
  /\ ((forall x, In x l -> In x keys) ->
      fold_right Z.add 0%Z (map (list_count l) keys)
      = Z.of_nat (List.length l)).
Proof.
  intro Hnd. induction l as [|y l [IHle IHeq]].
  - split; [|intros _]; induction keys; simpl in *; try lia;
      inversion Hnd; subst; auto.
  - cbn [list_count List.length].
    change (map (list_count (y :: l)) keys)
      with (map (fun x => ((if String.eqb y x then 1 else 0)
                           + list_count l x)%Z) keys).
    rewrite sum_split, (sum_indicator y keys Hnd). split.
    + destruct (in_dec string_dec y keys); lia.
    + intro Hall. rewrite IHeq by (intros x Hx; apply Hall; now right).
      destruct (in_dec string_dec y keys) as [_|Hn]; [lia|].
      exfalso. apply Hn, Hall. now left.
Qed.

Lemma table_values (k : Z) (l : list string) (d : dict) :
  frequency_table_of k l d ->
  map snd d = map (list_count l) (map fst d)
  /\ (forall x, In x (map fst d) <-> In x l /\ (k <= list_count l x)%Z).
Proof.
  intros (Hnd & Hget & _ & _).
  assert (Hentry : forall x c, In (x, c) d ->
                               In x l /\ c = list_count l x /\ (k <= c)%Z).
  { intros x c Hin. now apply Hget, dict_get_in. }
  split.
  - rewrite map_map. apply map_ext_in. intros [x c] Hin.
    now destruct (Hentry x c Hin) as (_ & -> & _).
  - intro x. rewrite in_map_iff. split.
    + intros ([y c] & <- & Hin).
      destruct (Hentry y c Hin) as (H1 & -> & H3). auto.
    + intros [H1 H2]. exists (x, list_count l x). split; [reflexivity|].
      apply dict_get_in; [assumption|]. apply Hget. auto.
Qed.

Lemma table_counts (k : Z) (l : list string) (d : dict) :
  frequency_table_of k l d ->
  Forall (fun kv => (1 <= snd kv <= Z.of_nat (List.length l))%Z) d
  /\ (sum_values d <= Z.of_nat (List.length l))%Z
  /\ ((k <= 1)%Z ->
      sum_values d = Z.of_nat (List.length l)
      /\ same_elements (map fst d) l)
  /\ (d = [] <-> forall x, In x l -> (list_count l x < k)%Z).
Proof.
  intro Ht. destruct (table_values k l d Ht) as [Hval Hkeys].
  pose proof Ht as (Hnd & Hget & _ & _).
  destruct (sum_of_counts l (map fst d) Hnd) as [Hle Heq].
  assert (Hone : forall x, In x l -> (1 <= list_count l x)%Z).
  { intros x Hx. pose proof (list_count_bounds l x).
    destruct (Z.eq_dec (list_count l x) 0) as [H0|H0]; [|lia].
    apply list_count_zero in H0. contradiction. }
  split; [|split; [|split]].
  - apply Forall_forall. intros [x c] Hin. cbn [snd].
    apply dict_get_in, Hget in Hin; [|assumption].
    destruct Hin as (H1 & -> & _).
    pose proof (list_count_bounds l x). specialize (Hone x H1). lia.
  - unfold sum_values. now rewrite Hval.
  - intro Hk.
    assert (Hsame : same_elements (map fst d) l).
    { intro x. rewrite Hkeys. split; [tauto|]. intro Hx.
      split; [assumption|]. specialize (Hone x Hx). lia. }
    split; [|exact Hsame].
    unfold sum_values. rewrite Hval. apply Heq. intros x Hx. now apply Hsame.
  - split.
    + intros -> x Hx.
      destruct (Z.lt_ge_cases (list_count l x) k) as [|Hge]; [assumption|].
      exfalso. apply (proj2 (Hkeys x)). auto.
    + intro Hall. destruct d as [|[x c] d']; [reflexivity|]. exfalso.
      assert (Hx : In x (map fst ((x, c) :: d'))) by now left.
      apply Hkeys in Hx as [Hx Hk]. specialize (Hall x Hx). lia.
Qed.

(** X15.  In the table [find_tag_frequencies] stores, every count is at
    least 1 and at most the length of the flat tag sequence, and the
    counts add up to at most that length; with a threshold of 1 or less
    the keys are exactly the elements of the sequence and the counts add up
    to its length.  The same holds of [find_title_frequencies] and the
    flat title sequence. *)
Theorem frequency_counts (k : Z) (t : Trending) :
  let tag_table := t_tag_frequencies (find_tag_frequencies k t) in
  let title_table := t_title_frequencies (find_title_frequencies k t) in
  (Forall (fun kv => (1 <= snd kv <= Z.of_nat (List.length (t_tags t)))%Z)
          tag_table
   /\ (sum_values tag_table <= Z.of_nat (List.length (t_tags t)))%Z
   /\ ((k <= 1)%Z ->
       sum_values tag_table = Z.of_nat (List.length (t_tags t))
       /\ same_elements (map fst tag_table) (t_tags t)))
  /\ (Forall (fun kv => (1 <= snd kv <= Z.of_nat (List.length (t_titles t)))%Z)
             title_table
      /\ (sum_values title_table <= Z.of_nat (List.length (t_titles t)))%Z
      /\ ((k <= 1)%Z ->
          sum_values title_table = Z.of_nat (List.length (t_titles t))
          /\ same_elements (map fst title_table) (t_titles t))).
Proof.
  cbv zeta. cbn [find_tag_frequencies find_title_frequencies
                 t_tag_frequencies t_title_frequencies].
  destruct (table_counts k (t_tags t) _ (frequencies_is_table k (t_tags t)))
    as (H1 & H2 & H3 & _).
  destruct (table_counts k (t_titles t) _
                         (frequencies_is_table k (t_titles t)))
    as (H4 & H5 & H6 & _).
  repeat split; try assumption; try apply H3; try apply H6; assumption.
Qed.

(** X16.  The table [find_tag_frequencies] stores is empty exactly when
    no tag of the flat sequence occurs as often as the threshold asks; it
    is empty, in particular, for every threshold above the length of the
    sequence, and for an empty sequence.  The same holds of
    [find_title_frequencies]. *)
Theorem frequency_table_empty (k : Z) (t : Trending) :
  (t_tag_frequencies (find_tag_frequencies k t) = []
   <-> forall x, In x (t_tags t) -> (list_count (t_tags t) x < k)%Z)
  /\ (t_title_frequencies (find_title_frequencies k t) = []
      <-> forall x, In x (t_titles t) -> (list_count (t_titles t) x < k)%Z)
  /\ ((Z.of_nat (List.length (t_tags t)) < k)%Z ->
      t_tag_frequencies (find_tag_frequencies k t) = [])
  /\ ((Z.of_nat (List.length (t_titles t)) < k)%Z ->
      t_title_frequencies (find_title_frequencies k t) = []).
Proof.
  cbn [find_tag_frequencies find_title_frequencies
       t_tag_frequencies t_title_frequencies].
  destruct (table_counts k (t_tags t) _ (frequencies_is_table k (t_tags t)))
    as (_ & _ & _ & H1).
  destruct (table_counts k (t_titles t) _
                         (frequencies_is_table k (t_titles t)))
    as (_ & _ & _ & H2).
  split; [exact H1|]. split; [exact H2|]. split; intro Hk.
  - apply H1. intros x _. pose proof (list_count_bounds (t_tags t) x). lia.
  - apply H2. intros x _. pose proof (list_count_bounds (t_titles t) x). lia.
Qed.

(** ** [bar_plot] and the stored table *)

Lemma combine_tags_keeps_tables
      (list_set : list string -> list string) (stopwords_english : list string)
      (split combine_flag stop_words : bool) (t t' : Trending) :
  combine_tags list_set stopwords_english split combine_flag stop_words t
  = Ok t' ->
  t_tag_frequencies t' = t_tag_frequencies t
  /\ t_title_frequencies t' = t_title_frequencies t
  /\ t_date t' = t_date t.
Proof.
  unfold combine_tags.
  destruct (combine_tags_loop list_set stopwords_english split combine_flag
                              stop_words (t_videos t) (t_tags t));
    [|discriminate].
  cbn [bind]. intros [= <-]. repeat split.
Qed.

Lemma draw_bars_no_date
      (strftime : Z -> string) (table : dict) (plot_title : string)
      (t : Trending) :
  t_date t = None ->
  draw_bars strftime table plot_title t = Err AttributeError.
Proof. intro H. unfold draw_bars. now rewrite H. Qed.

Lemma draw_bars_empty
      (strftime : Z -> string) (plot_title : string) (t : Trending) (date : Z) :
  t_date t = Some date ->
  draw_bars strftime [] plot_title t = Err ValueError.
Proof. intro H. unfold draw_bars. now rewrite H. Qed.

Lemma draw_bars_ok
      (strftime : Z -> string) (table : dict) (plot_title : string)
      (t : Trending) (date : Z) :
  t_date t = Some date -> table <> [] ->
  exists chart,
    draw_bars strftime table plot_title t = Ok (Some chart)
    /\ chart_bars chart = table.
Proof.
  intros H Hne. unfold draw_bars. rewrite H. cbn [bind].
  destruct table as [|kv table]; [congruence|].
  cbn [map max_value bind]. eexists. split; reflexivity.
Qed.

(** X17.  [bar_plot] with the tag selector, on a state in which no tag
    table is stored, computes the table of its threshold and stores it,
    also when the call then raises.  It raises [AttributeError] when no
    date was recorded (before [get_videos]), and, with a date, [ValueError]
    when no tag reaches the threshold: the stored table is then still
    empty, and the next call computes the table of its own threshold.
    With a date and a tag that reaches the threshold it draws the table;
    every later call then draws that same stored table whatever threshold
    it is given, also after [combine_tags] has added tags to the flat
    sequence. *)
Theorem bar_plot_stored_table
        (strftime : Z -> string)
        (list_set : list string -> list string)
        (stopwords_english : list string)
        (split combine_flag stop_words : bool)
        (k1 k2 : Z) (t : Trending) :
  t_tag_frequencies t = [] ->
  let r1 := bar_plot strftime false true k1 t in
  let t1 := fst r1 in
  t1 = find_tag_frequencies k1 t
  /\ (t_date t = None -> snd r1 = Err AttributeError)
  /\ (forall date,
         t_date t = Some date ->
         (forall x, In x (t_tags t) -> (list_count (t_tags t) x < k1)%Z) ->
         snd r1 = Err ValueError
         /\ t_tag_frequencies t1 = []
         /\ fst (bar_plot strftime false true k2 t1)
            = find_tag_frequencies k2 t)
  /\ (forall date,
         t_date t = Some date ->
         (exists x, In x (t_tags t) /\ (k1 <= list_count (t_tags t) x)%Z) ->
         (exists chart,
             snd r1 = Ok (Some chart)
             /\ chart_bars chart = frequencies k1 (t_tags t))
         /\ bar_plot strftime false true k2 t1 = (t1, snd r1)
         /\ forall t2,
             combine_tags list_set stopwords_english
                          split combine_flag stop_words t1 = Ok t2 ->
             exists chart,
               bar_plot strftime false true k2 t2 = (t2, Ok (Some chart))
               /\ chart_bars chart = frequencies k1 (t_tags t)).
Proof.
  intros Hempty r1 t1.
  assert (Hr1 : r1 = (find_tag_frequencies k1 t,
                      draw_bars strftime (frequencies k1 (t_tags t))
                        "Frequency of a Given Tag on the YouTube Trending Page"
                        (find_tag_frequencies k1 t))).
  { unfold r1, bar_plot. now rewrite Hempty. }
  assert (Ht1 : t1 = find_tag_frequencies k1 t) by (unfold t1; now rewrite Hr1).
  destruct (table_counts k1 (t_tags t) _ (frequencies_is_table k1 (t_tags t)))
    as (_ & _ & _ & Hnil).
  split; [exact Ht1|]. rewrite Hr1, Ht1. cbn [fst snd]. split; [|split].
  - intro Hdate. now apply draw_bars_no_date.
  - intros date Hdate Hall. apply (proj2 Hnil) in Hall.
    rewrite Hall. split; [now apply (draw_bars_empty _ _ _ date)|].
    cbn [find_tag_frequencies t_tag_frequencies]. rewrite Hall.
    split; [reflexivity|]. unfold bar_plot. cbv zeta.
    cbn [find_tag_frequencies t_tag_frequencies]. rewrite Hall.
    reflexivity.
  - intros date Hdate (x & Hx & Hk).
    assert (Hne : frequencies k1 (t_tags t) <> []).
    { intro H. pose proof (proj1 Hnil H x Hx). lia. }
    assert (Hkeep : forall k t',
               t_tag_frequencies t' = frequencies k1 (t_tags t) ->
               bar_plot strftime false true k t'
               = (t', draw_bars strftime (frequencies k1 (t_tags t))
                        "Frequency of a Given Tag on the YouTube Trending Page"
                        t')).
    { intros k t' Ht'. rewrite <- Ht' in *. unfold bar_plot.
      destruct (t_tag_frequencies t') eqn:E; [congruence|].
      cbv zeta. now rewrite E. }
    split; [|split].
    + now apply (draw_bars_ok _ _ _ _ date).
    + now apply Hkeep.
    + intros t2 Hrun.
      apply combine_tags_keeps_tables in Hrun as (Htab & _ & Hd2).
      cbn [find_tag_frequencies t_tag_frequencies t_date] in Htab, Hd2.
      rewrite (Hkeep k2 t2 Htab).
      destruct (draw_bars_ok
                  strftime (frequencies k1 (t_tags t))
                  "Frequency of a Given Tag on the YouTube Trending Page"
                  t2 date ltac:(congruence) Hne)
        as (chart & Hc & Hb).
      exists chart. now rewrite Hc.
Qed.

Lemma bar_plot_stored_table_witness :
  bar_plot clock_text false true 1
           (fst (bar_plot clock_text false true 2
                          (mkTrending [] [] ["a"; "b"; "a"] [] [] (Some 0%Z))))
  = (fst (bar_plot clock_text false true 2
                   (mkTrending [] [] ["a"; "b"; "a"] [] [] (Some 0%Z))),
     snd (bar_plot clock_text false true 2
                   (mkTrending [] [] ["a"; "b"; "a"] [] [] (Some 0%Z)))).
Proof.
  destruct (bar_plot_stored_table
              clock_text first_seen_set [] false false false 2 1
              (mkTrending [] [] ["a"; "b"; "a"] [] [] (Some 0%Z)) eq_refl)
    as (_ & _ & _ & Hkeep).
  destruct (Hkeep 0%Z eq_refl) as (_ & Hagain & _); [|exact Hagain].
  exists "a". split; [now left | simpl; lia].
Defined.

(** ** [stop_title] before [split_title] *)

(** X18.  [stop_title] always leaves the title a list, so a later
    [split_title] raises [AttributeError]: the two only work in the order
    split, then stop.  On a title that is still a string, [stop_title]
    takes the title apart into its characters and keeps those that are no
    stop entry: the title becomes a list of one-character strings, none of
    them a digit or a punctuation character. *)
Theorem stop_title_before_split
        (list_set : list string -> list string)
        (stopwords_english : list string)
        (v : Video) (combine : bool) :
  set_order_ok list_set ->
  split_title list_set combine (stop_title list_set stopwords_english v)
  = Err AttributeError
  /\ (forall s,
         v_title v = TitleStr s ->
         exists l,
           v_title (stop_title list_set stopwords_english v) = TitleList l
           /\ Forall (fun x => String.length x = 1
                               /\ In x (str_chars s)
                               /\ ~ In (str_lower x) custom_ignore) l).
Proof.
  intro Hok. split.
  - unfold split_title, stop_title.
    destruct (v_title v); reflexivity.
  - intros s Hs. unfold stop_title. rewrite Hs. cbn [set_title v_title].
    eexists. split; [reflexivity|].
    apply Forall_forall. intros x Hx.
    apply (remove_stopwords_in _ _ _ _ Hok) in Hx as [Hx Hn].
    split; [|split; [exact Hx|]].
    + pose proof (str_chars_length s) as Hlen.
      rewrite Forall_forall in Hlen. now apply Hlen.
    + intro H. apply Hn. apply in_or_app. now right.
Qed.

Lemma stop_title_before_split_witness :
  split_title first_seen_set false
              (stop_title first_seen_set ["a"]
                          (video_with (TitleStr "a1 b!") None))
  = Err AttributeError
  /\ v_title (stop_title first_seen_set ["a"]
                         (video_with (TitleStr "a1 b!") None))
     = TitleList [" "; "b"].
Proof.
  split; [|reflexivity].
  exact (proj1 (stop_title_before_split
                  first_seen_set ["a"]
                  (video_with (TitleStr "a1 b!") None) false
                  first_seen_set_ok)).
Defined.

(** ** [len] *)

Lemma length_flat_map_service
      (youtube_list : list string -> list ApiItem)
      (calls : list (list string)) :
  (forall c, List.length (youtube_list c) = List.length c) ->
  List.length (flat_map youtube_list calls) = List.length (List.concat calls).
Proof.
  intro Hapi. induction calls as [|c calls IH]; [reflexivity|].
  cbn [flat_map List.concat]. now rewrite !length_app, Hapi, IH.
Qed.

(** X19.  [len] of a [Trending] object counts the videos it owns.
    [get_videos] raises it by the number of records the service returned
    over all its calls; when the service returns one record for each
    identifier it is asked for, that is the number of identifiers found on
    the page. *)
Theorem get_videos_len
        (list_set : list string -> list string)
        (youtube_list : list string -> list ApiItem)
        (hrefs : list (option string)) (now : Z) (t t' : Trending)
        (calls : list (list string)) :
  get_videos list_set youtube_list hrefs now t = Ok (t', calls) ->
  trending_len t'
  = trending_len t + List.length (flat_map youtube_list calls)
  /\ ((forall c, List.length (youtube_list c) = List.length c) ->
      thumbnail_ids hrefs = Ok (List.concat calls)
      /\ trending_len t'
         = trending_len t + List.length (List.concat calls)).
Proof.
  intro Hrun. unfold get_videos in Hrun.
  destruct (thumbnail_ids hrefs) as [ids|e] eqn:Hids; [|discriminate].
  destruct (get_videos_run list_set youtube_list hrefs now t ids Hids)
    as (front & final & Hrun' & Hc & _).
  unfold get_videos in Hrun'. rewrite Hids in Hrun'.
  rewrite Hrun' in Hrun. injection Hrun as <- <-.
  unfold trending_len. cbn [t_videos].
  rewrite length_app, length_map. split; [reflexivity|].
  intro Hapi. rewrite Hc. split; [reflexivity|].
  now rewrite (length_flat_map_service _ _ Hapi), Hc.
Qed.

Lemma get_videos_len_witness :
  exists t' calls,
    get_videos first_seen_set bare_service (page_of 3) 0 new_trending
    = Ok (t', calls)
    /\ trending_len t' = 3.
Proof.
  eexists. eexists. split; [reflexivity|].
  destruct (get_videos_len
              first_seen_set bare_service (page_of 3) 0 new_trending
              _ _ eq_refl)
    as (Hlen & _).
  exact Hlen.
Defined.
